(** * TrailSync: the offline-first synchronisation engine

    A shallow embedding of the browser-side record store ([ActivityDB],
    [SyncQueueDB], [SettingsDB] over the Dexie database), of the sync
    service ([SyncService]), of the HTTP client ([APIService]) and of the
    activity controller of the backend (with the schema of
    backend/models/Activity.js), followed by the properties of the
    synchronisation cycle.

    JavaScript objects are finite maps from property names to values,
    Dexie tables are finite maps from auto-incremented keys to rows, and the
    asynchronous code is written in a state-and-exception monad over one
    world that holds the browser database, the service flags and the
    backend collection. *)

From stdpp Require Import gmap strings list fin_maps sorting pretty.
From Stdlib Require Import ZArith Lia.

(** ** Values and objects *)

(** The property values the engine looks at.  [VTime t] is the ISO-8601 text
    of the instant [t] (milliseconds since the epoch), what
    [new Date().toISOString()] produces and what JSON carries for a Mongoose
    [Date]; [VStr] is any text that is not a timestamp.  A property that is
    [undefined] is a property that is absent. *)
Inductive Value :=
| VNull
| VBool (b : bool)
| VNum (z : Z)
| VStr (s : string)
| VTime (t : Z).

#[global] Instance Value_eq_dec : EqDecision Value.
Proof. solve_decision. Defined.

Abbreviation Obj := (gmap string Value).

(** JavaScript truthiness, as used by [!x], [x ? a : b] and [x?.p]. *)
Definition truthy (v : option Value) : bool :=
  match v with
  | None | Some VNull => false
  | Some (VBool b) => b
  | Some (VNum z) => negb (z =? 0)%Z
  | Some (VStr s) => negb (String.eqb s "")
  | Some (VTime _) => true
  end.

(** [new Date(v).getTime()]; [None] is the invalid date, whose time value is
    NaN. *)
Definition dateOf (v : option Value) : option Z :=
  match v with
  | None => None
  | Some VNull => Some 0%Z
  | Some (VBool b) => Some (if b then 1 else 0)%Z
  | Some (VNum z) =>
      if ((-8640000000000000 <=? z) && (z <=? 8640000000000000))%Z
      then Some z else None
  | Some (VStr _) => None
  | Some (VTime t) => Some t
  end.

(** [a > b] on two [Date]s: false as soon as one of them is invalid. *)
Definition dateGt (a b : option Z) : bool :=
  match a, b with
  | Some x, Some y => (y <? x)%Z
  | _, _ => false
  end.

(** ** The browser database *)

(** The [operation] of a queue entry: ['create'], ['update'], ['delete']. *)
Inductive Operation := op_create | op_update | op_delete.

#[global] Instance Operation_eq_dec : EqDecision Operation.
Proof. solve_decision. Defined.

(** A row of the [syncQueue] table; its key [id] is the key of the table. *)
Record QueueItem := {
  operation : Operation;
  activityId : nat;
  data : option Obj;
  timestamp : Z;
  retryCount : nat;
  lastAttempt : option Z
}.

(** A document of the backend collection.  The schema makes [_id],
    [startTime] and [lastModified] present and typed; every other path is
    kept in [doc_rest]. *)
Record ServerDoc := {
  doc_id : string;
  doc_startTime : Z;
  doc_lastModified : Z;
  doc_rest : Obj
}.

(** The JSON the backend sends for a document. *)
Definition toJSON (d : ServerDoc) : Obj :=
  <["_id" := VStr (doc_id d)]>
    (<["startTime" := VTime (doc_startTime d)]>
       (<["lastModified" := VTime (doc_lastModified d)]> (doc_rest d))).

(** The world: the three Dexie tables with their key generators (the keys of
    an auto-incremented table are never reused), the [isSyncing] flag of the
    service, [navigator.onLine], the backend collection, and the counters of
    the clock readings, of the HTTP requests and of the object identifiers
    handed out so far. *)
Record World := {
  activities : gmap nat Obj;
  activitiesNext : nat;
  syncQueue : gmap nat QueueItem;
  syncQueueNext : nat;
  lastSync : option Z;
  isSyncing : bool;
  onLine : bool;
  server : list ServerDoc;
  objectIds : nat;
  ticks : nat;
  requests : nat
}.

Definition set_activities (f : gmap nat Obj → gmap nat Obj) (w : World) : World :=
  {| activities := f (activities w); activitiesNext := activitiesNext w;
     syncQueue := syncQueue w; syncQueueNext := syncQueueNext w;
     lastSync := lastSync w; isSyncing := isSyncing w; onLine := onLine w;
     server := server w; objectIds := objectIds w; ticks := ticks w;
     requests := requests w |}.

Definition set_activitiesNext (n : nat) (w : World) : World :=
  {| activities := activities w; activitiesNext := n;
     syncQueue := syncQueue w; syncQueueNext := syncQueueNext w;
     lastSync := lastSync w; isSyncing := isSyncing w; onLine := onLine w;
     server := server w; objectIds := objectIds w; ticks := ticks w;
     requests := requests w |}.

Definition set_syncQueue (f : gmap nat QueueItem → gmap nat QueueItem) (w : World) : World :=
  {| activities := activities w; activitiesNext := activitiesNext w;
     syncQueue := f (syncQueue w); syncQueueNext := syncQueueNext w;
     lastSync := lastSync w; isSyncing := isSyncing w; onLine := onLine w;
     server := server w; objectIds := objectIds w; ticks := ticks w;
     requests := requests w |}.

Definition set_syncQueueNext (n : nat) (w : World) : World :=
  {| activities := activities w; activitiesNext := activitiesNext w;
     syncQueue := syncQueue w; syncQueueNext := n;
     lastSync := lastSync w; isSyncing := isSyncing w; onLine := onLine w;
     server := server w; objectIds := objectIds w; ticks := ticks w;
     requests := requests w |}.

Definition set_lastSync (v : option Z) (w : World) : World :=
  {| activities := activities w; activitiesNext := activitiesNext w;
     syncQueue := syncQueue w; syncQueueNext := syncQueueNext w;
     lastSync := v; isSyncing := isSyncing w; onLine := onLine w;
     server := server w; objectIds := objectIds w; ticks := ticks w;
     requests := requests w |}.

Definition set_isSyncing (b : bool) (w : World) : World :=
  {| activities := activities w; activitiesNext := activitiesNext w;
     syncQueue := syncQueue w; syncQueueNext := syncQueueNext w;
     lastSync := lastSync w; isSyncing := b; onLine := onLine w;
     server := server w; objectIds := objectIds w; ticks := ticks w;
     requests := requests w |}.

Definition set_server (f : list ServerDoc → list ServerDoc) (w : World) : World :=
  {| activities := activities w; activitiesNext := activitiesNext w;
     syncQueue := syncQueue w; syncQueueNext := syncQueueNext w;
     lastSync := lastSync w; isSyncing := isSyncing w; onLine := onLine w;
     server := f (server w); objectIds := objectIds w; ticks := ticks w;
     requests := requests w |}.

Definition set_objectIds (n : nat) (w : World) : World :=
  {| activities := activities w; activitiesNext := activitiesNext w;
     syncQueue := syncQueue w; syncQueueNext := syncQueueNext w;
     lastSync := lastSync w; isSyncing := isSyncing w; onLine := onLine w;
     server := server w; objectIds := n; ticks := ticks w;
     requests := requests w |}.

Definition set_ticks (n : nat) (w : World) : World :=
  {| activities := activities w; activitiesNext := activitiesNext w;
     syncQueue := syncQueue w; syncQueueNext := syncQueueNext w;
     lastSync := lastSync w; isSyncing := isSyncing w; onLine := onLine w;
     server := server w; objectIds := objectIds w; ticks := n;
     requests := requests w |}.

Definition set_requests (n : nat) (w : World) : World :=
  {| activities := activities w; activitiesNext := activitiesNext w;
     syncQueue := syncQueue w; syncQueueNext := syncQueueNext w;
     lastSync := lastSync w; isSyncing := isSyncing w; onLine := onLine w;
     server := server w; objectIds := objectIds w; ticks := ticks w;
     requests := n |}.

(** The types of the paths of the Mongoose schema. *)
Inductive SchemaType := TString | TNumber | TDate | TArray.

(** Mongoose, MongoDB and the JavaScript runtime, where the backend relies on
    them for more than the code under verification says.  What is proved
    holds for every choice of them.
    - [isObjectId s]: Mongoose can cast the text [s] to an [ObjectId];
    - [convert ty v]: the value Mongoose casts [v] to for a path of type
      [ty] when [v] is of another type ([None]: a [CastError]); for a path
      that holds an array, the cast of [v] and the validation of its
      elements;
    - [divide a b]: [a / b] in floating point, which the embedding does not
      compute;
    - [routeGain route]: [Math.round] of the altitude gained along [route]
      when it has more than one point;
    - [toLocaleDateString t]: the date of the instant [t] in the locale of
      the server;
    - [currentTime n]: the time the [timestamps] option of the schema reads
      while the [n]-th reading of the code is the next one;
    - [sortOrder sortBy a b]: [a] is not listed after [b] by
      [.sort(sortBy)]. *)
Record Runtime := {
  isObjectId : string → bool;
  convert : SchemaType → Value → option Value;
  divide : Value → Value → Value;
  routeGain : Value → option Value;
  toLocaleDateString : Z → string;
  currentTime : nat → Z;
  sortOrder : string → ServerDoc → ServerDoc → bool
}.

(** What the code cannot decide: the time each [new Date()] reads, whether
    an HTTP request is served (connectivity, time-out, API key and rate
    limit all end in a rejected promise before the handler runs), the
    identifier MongoDB assigns to a new document, and the libraries under
    the backend. *)
Record Env := {
  clock : nat → Z;
  net : nat → bool;
  objectId : nat → string;
  runtime : Runtime
}.

(** ** The monad of the asynchronous code

    A computation reads the environment, threads the world and either
    returns or throws an [Error] with a message; what it did to the world
    before throwing stays done. *)
Inductive Outcome (A : Type) :=
| Ok (a : A)
| Throw (message : string).
Arguments Ok {A} a.
Arguments Throw {A} message.

Definition M (A : Type) : Type := Env → World → Outcome A * World.

Definition ret {A} (a : A) : M A := λ _ w, (Ok a, w).

Definition bind {A B} (m : M A) (k : A → M B) : M B :=
  λ e w, match m e w with
         | (Ok a, w') => k a e w'
         | (Throw x, w') => (Throw x, w')
         end.

Definition throw {A} (message : string) : M A := λ _ w, (Throw message, w).

(** [try { m } catch (error) { h error.message }] *)
Definition try_catch {A} (m : M A) (h : string → M A) : M A :=
  λ e w, match m e w with
         | (Ok a, w') => (Ok a, w')
         | (Throw x, w') => h x e w'
         end.

(** [try { m } finally { f }], for a block [f] that assigns and nothing
    else. *)
Definition try_finally {A} (m : M A) (f : World → World) : M A :=
  λ e w, let '(r, w') := m e w in (r, f w').

Definition gets {A} (f : World → A) : M A := λ _ w, (Ok (f w), w).
Definition env : M Env := λ e w, (Ok e, w).
Definition modify (f : World → World) : M unit := λ _ w, (Ok tt, f w).

Notation "'let*' x ':=' m 'in' k" := (bind m (λ x, k))
  (at level 10, x pattern, m at level 100, k at level 200).
Notation "m ';;' k" := (bind m (λ _, k))
  (at level 100, k at level 200, right associativity).

(** [new Date()] *)
Definition now : M Z :=
  λ e w, (Ok (clock e (ticks w)), set_ticks (S (ticks w)) w).

(** [for (const x of l) { body x }] with an accumulator for the variables the
    body assigns. *)
Fixpoint for_of {A S} (l : list A) (body : A → S → M S) (s : S) : M S :=
  match l with
  | [] => ret s
  | x :: l' => let* s' := body x s in for_of l' body s'
  end.

(** ** Dexie tables *)

(** The values IndexedDB accepts as index keys: numbers and strings.  A row
    whose indexed property is anything else is not in the index. *)
Definition indexable (v : option Value) : bool :=
  match v with
  | Some (VNum _) | Some (VStr _) | Some (VTime _) => true
  | _ => false
  end.

(** The order of index keys: numbers before strings, numbers by value,
    strings by their text.  Two timestamps compare as their instants do; a
    timestamp against a free text, which the application never stores under
    one index, is placed first. *)
Definition key_cmp (a b : option Value) : comparison :=
  match a, b with
  | Some (VNum x), Some (VNum y) => (x ?= y)%Z
  | Some (VNum _), _ => Lt
  | _, Some (VNum _) => Gt
  | Some (VTime x), Some (VTime y) => (x ?= y)%Z
  | Some (VTime _), Some (VStr _) => Lt
  | Some (VStr _), Some (VTime _) => Gt
  | Some (VStr x), Some (VStr y) => String.compare x y
  | _, _ => Eq
  end.

(** An index lists its rows by key, rows of equal key by primary key. *)
Definition index_leb {A} (key : A → option Value) (x y : nat * A) : bool :=
  match key_cmp (key x.2) (key y.2) with
  | Lt => true
  | Eq => x.1 <=? y.1
  | Gt => false
  end.

(** [table.orderBy(path).toArray()] *)
Definition orderBy {A} (key : A → option Value) (rows : gmap nat A) : list (nat * A) :=
  merge_sort (λ x y, index_leb key x y)
    (filter (λ r, indexable (key r.2)) (map_to_list rows)).

Definition dateGe (a b : option Z) : bool :=
  match a, b with
  | Some x, Some y => (y <=? x)%Z
  | _, _ => false
  end.

Definition dateLe (a b : option Z) : bool := dateGe b a.

(** [db.syncQueue.add(item)] *)
Definition syncQueue_add (item : QueueItem) : M nat :=
  λ _ w, let k := syncQueueNext w in
         (Ok k, set_syncQueueNext (S k) (set_syncQueue <[k := item]> w)).

(** ** ActivityDB

    The primary key [id] of a row is the key of the table and is not kept
    among the properties of the object: the objects handed to the store
    (a finished activity, a document of the backend) never name their own
    [id], so every key comes from the generator. *)
Module ActivityDB.

(** [add(activity)] *)
Definition add (activity : Obj) : M nat :=
  let* t := now in
  let* id := (λ _ w,
    let k := activitiesNext w in
    (Ok k, set_activitiesNext (S k)
             (set_activities
                <[k := <["lastModified" := VTime t]>
                         (<["syncStatus" := VStr "pending"]> activity)]> w))) in
  let* t' := now in
  syncQueue_add {| operation := op_create; activityId := id;
                   data := Some activity; timestamp := t';
                   retryCount := 0; lastAttempt := None |};;
  ret id.

(** [getAll(filters)] *)
Definition getAll (filters : Obj) : M (list (nat * Obj)) :=
  gets (λ w,
    let collection := reverse (orderBy (λ a : Obj, a !! "startTime") (activities w)) in
    let collection :=
      if truthy (filters !! "type")
      then filter (λ a : nat * Obj, a.2 !! "type" = filters !! "type") collection
      else collection in
    let collection :=
      if truthy (filters !! "startDate")
      then filter (λ a : nat * Obj,
             dateGe (dateOf (a.2 !! "startTime")) (dateOf (filters !! "startDate")))
             collection
      else collection in
    if truthy (filters !! "endDate")
    then filter (λ a : nat * Obj,
           dateLe (dateOf (a.2 !! "startTime")) (dateOf (filters !! "endDate")))
           collection
    else collection).

(** [getById(id)] *)
Definition getById (id : nat) : M (option Obj) :=
  gets (λ w, activities w !! id).

(** [update(id, updates)]: Dexie writes the given properties over the row
    when the row exists and does nothing when it does not; the queue entry
    is added in both cases. *)
Definition update (id : nat) (updates : Obj) : M unit :=
  let* t := now in
  modify (set_activities
            (alter (λ row, <["lastModified" := VTime t]>
                             (<["syncStatus" := VStr "pending"]> updates) ∪ row) id));;
  let* t' := now in
  syncQueue_add {| operation := op_update; activityId := id;
                   data := Some updates; timestamp := t';
                   retryCount := 0; lastAttempt := None |};;
  ret tt.

(** [delete(id)] *)
Definition delete (id : nat) : M unit :=
  modify (set_activities (base.delete id));;
  let* t' := now in
  syncQueue_add {| operation := op_delete; activityId := id;
                   data := None; timestamp := t';
                   retryCount := 0; lastAttempt := None |};;
  ret tt.

(** [getPendingSync()] *)
Definition getPendingSync : M (list (nat * Obj)) :=
  gets (λ w, filter (λ a : nat * Obj, a.2 !! "syncStatus" = Some (VStr "pending"))
               (orderBy (λ a : Obj, a !! "syncStatus") (activities w))).

(** [markSynced(id, serverId)]; Dexie removes a property whose new value
    is [undefined]. *)
Definition markSynced (id : nat) (serverId : option Value) : M unit :=
  modify (set_activities
            (alter (λ row, <["syncStatus" := VStr "synced"]>
                             (match serverId with
                              | Some v => <["serverId" := v]> row
                              | None => base.delete "serverId" row
                              end)) id)).

End ActivityDB.

(** ** SyncQueueDB *)
Module SyncQueueDB.

(** [getAll()] *)
Definition getAll : M (list (nat * QueueItem)) :=
  gets (λ w, orderBy (λ q, Some (VTime (timestamp q))) (syncQueue w)).

(** [remove(id)] *)
Definition remove (id : nat) : M unit :=
  modify (set_syncQueue (base.delete id)).

(** [incrementRetry(id)] *)
Definition incrementRetry (id : nat) : M unit :=
  let* item := gets (λ w, syncQueue w !! id) in
  match item with
  | Some item =>
      let* t := now in
      modify (set_syncQueue
                (alter (λ q, {| operation := operation q; activityId := activityId q;
                                data := data q; timestamp := timestamp q;
                                retryCount := retryCount item + 1;
                                lastAttempt := Some t |}) id))
  | None => ret tt
  end.

(** [clear()] *)
Definition clear : M unit := modify (set_syncQueue (λ _, ∅)).

End SyncQueueDB.

(** ** SettingsDB, for the one key the service uses *)
Module SettingsDB.

(** [get('lastSync')]: [None] is the [null] the database is populated
    with. *)
Definition get_lastSync : M (option Z) := gets lastSync.

(** [set('lastSync', new Date().toISOString())] *)
Definition set_lastSync (t : Z) : M unit := modify (set_lastSync (Some t)).

End SettingsDB.

(** ** The backend: the Activity model

    [backend/models/Activity.js]: the schema, the statistics and the
    pre-save hook, with what Mongoose does with them when a document is
    constructed and saved.  The properties kept are the scalar paths of the
    schema; the two array paths, whose default is the empty array, are kept
    only when a body names them, as what the cast makes of the value, and
    the version key [__v], which the list leaves out and the client never
    reads, is not kept. *)

(** What [save()] and [Model.create()] end in. *)
Inductive SaveResult (A : Type) :=
| Saved (doc : A)
| ValidationError
| OtherError.
Arguments Saved {A} doc.
Arguments ValidationError {A}.
Arguments OtherError {A}.

Module Activity.

Inductive Default :=
| no_default
| constant (v : Value)
| default_name.

Record PathSpec := {
  p_type : SchemaType;
  p_required : bool;
  p_enum : option (list string);
  p_min : option Z;
  p_maxlength : option nat;
  p_default : Default
}.

(** The schema, with the two paths of [timestamps: true].  The default of
    [lastModified], [Date.now], is not listed: the pre-save hook writes
    [lastModified] before any document is stored. *)
Definition schema : list (string * PathSpec) :=
  [ ("userId", Build_PathSpec TString false None None None
                 (constant (VStr "default-user")));
    ("type", Build_PathSpec TString true (Some ["walk"; "run"; "ride"])
               None None no_default);
    ("name", Build_PathSpec TString false None None None default_name);
    ("startTime", Build_PathSpec TDate true None None None no_default);
    ("endTime", Build_PathSpec TDate true None None None no_default);
    ("duration", Build_PathSpec TNumber true None None None no_default);
    ("distance", Build_PathSpec TNumber true None (Some 0%Z) None no_default);
    ("steps", Build_PathSpec TNumber false None (Some 0%Z) None
                (constant (VNum 0)));
    ("avgPace", Build_PathSpec TNumber false None None None (constant (VNum 0)));
    ("avgSpeed", Build_PathSpec TNumber false None None None (constant (VNum 0)));
    ("elevationGain", Build_PathSpec TNumber false None (Some 0%Z) None
                        (constant (VNum 0)));
    ("route", Build_PathSpec TArray false None None None no_default);
    ("syncStatus", Build_PathSpec TString false
                     (Some ["synced"; "pending"; "conflict"]) None None
                     (constant (VStr "synced")));
    ("lastModified", Build_PathSpec TDate false None None None no_default);
    ("notes", Build_PathSpec TString false None None (Some 1000) no_default);
    ("tags", Build_PathSpec TArray false None None None no_default);
    ("createdAt", Build_PathSpec TDate false None None None no_default);
    ("updatedAt", Build_PathSpec TDate false None None None no_default) ].

(** A value a path of the type can hold as it is; [null] is one for every
    type, and a timestamp is a text. *)
Definition well_typed (ty : SchemaType) (v : Value) : bool :=
  match ty, v with
  | _, VNull => true
  | TString, (VStr _ | VTime _) => true
  | TNumber, VNum _ => true
  | TDate, VTime _ => true
  | TArray, _ => true
  | _, _ => false
  end.

(** The cast of a value set on a path: a value of the type of the path is
    kept, any other is converted by Mongoose or refused. *)
Definition cast (e : Env) (ty : SchemaType) (v : Value) : option Value :=
  match ty, v with
  | _, VNull => Some VNull
  | TString, (VStr _ | VTime _) | TNumber, VNum _ | TDate, VTime _ => Some v
  | _, _ =>
      match convert (runtime e) ty v with
      | Some v' => if well_typed ty v' then Some v' else None
      | None => None
      end
  end.

(** Setting the properties of [body] on a document whose paths hold
    [base]: a property that is no path of the schema is not kept (the
    schema is strict), a path whose value cannot be cast keeps what it held
    and is reported. *)
Definition assign_paths (paths : list (string * PathSpec))
    (e : Env) (body base : Obj) : Obj * list string :=
  foldr (λ '(p, spec) '(fields, errors),
           match body !! p with
           | None => (fields, errors)
           | Some v =>
               match cast e (p_type spec) v with
               | Some v' => (<[p := v']> fields, errors)
               | None => (fields, p :: errors)
               end
           end)
        (base, []) paths.

Definition assign : Env → Obj → Obj → Obj * list string := assign_paths schema.

(** The defaults that are values, for the paths left [undefined]. *)
Definition constants_of (paths : list (string * PathSpec)) (fields : Obj) : Obj :=
  foldr (λ '(p, spec) fields,
           match p_default spec, fields !! p with
           | constant v, None => <[p := v]> fields
           | _, _ => fields
           end)
        fields paths.

Definition constants : Obj → Obj := constants_of schema.

(** [s.charAt(0).toUpperCase() + s.slice(1)], for a text in ASCII. *)
Definition capitalize (s : string) : string :=
  match s with
  | EmptyString => EmptyString
  | String c rest =>
      let n := Ascii.nat_of_ascii c in
      String (if (97 <=? n) && (n <=? 122) then Ascii.ascii_of_nat (n - 32) else c)
             rest
  end.

(** A path that is [undefined] or [null]. *)
Definition unset (v : option Value) : bool :=
  match v with
  | None | Some VNull => true
  | Some _ => false
  end.

(** The default of [name], for a document that has passed validation: its
    [type] is a text and its [startTime] a date. *)
Definition name_default (e : Env) (fields : Obj) : Obj :=
  match fields !! "name", fields !! "type", fields !! "startTime" with
  | None, Some (VStr type), Some (VTime startTime) =>
      <["name" := VStr (capitalize type +:+ " - "
                          +:+ toLocaleDateString (runtime e) startTime)]> fields
  | _, _, _ => fields
  end.

(** One validator set, on the value of its path; only [required] looks at
    a path that is [null] or [undefined]. *)
Definition valid (spec : PathSpec) (v : option Value) : bool :=
  match v with
  | None | Some VNull => negb (p_required spec)
  | Some v =>
      well_typed (p_type spec) v
      && negb (p_required spec && bool_decide (v = VStr ""))
      && match p_enum spec with
         | Some values =>
             match v with
             | VStr s => bool_decide (s ∈ values)
             | _ => false
             end
         | None => true
         end
      && match p_min spec, v with
         | Some m, VNum z => (m <=? z)%Z
         | _, _ => true
         end
      && match p_maxlength spec, v with
         | Some n, VStr s => String.length s <=? n
         | Some n, VTime _ => 27 <=? n
         | _, _ => true
         end
  end.

(** [validate()] *)
Definition validate (fields : Obj) : bool :=
  forallb (λ '(p, spec), valid spec (fields !! p)) schema.

(** [x > 0] on the value of a path that holds a number. *)
Definition positive (v : option Value) : bool :=
  match v with
  | Some (VNum z) => (0 <? z)%Z
  | _ => false
  end.

(** [calculateStats()] *)
Definition calculateStats (e : Env) (fields : Obj) : Obj :=
  let fields :=
    match fields !! "distance", fields !! "duration" with
    | Some distance, Some duration =>
        if positive (Some distance) && positive (Some duration) then
          let distanceKm := divide (runtime e) distance (VNum 1000) in
          let durationHours := divide (runtime e) duration (VNum 3600) in
          <["avgSpeed" := divide (runtime e) distanceKm durationHours]>
            (<["avgPace" := divide (runtime e)
                              (divide (runtime e) duration (VNum 60)) distanceKm]>
               fields)
        else fields
    | _, _ => fields
    end in
  match fields !! "route" with
  | None | Some VNull => fields
  | Some route =>
      match routeGain (runtime e) route with
      | Some gain => <["elevationGain" := gain]> fields
      | None => fields
      end
  end.

(** The paths of a stored document. *)
Definition fields_of (d : ServerDoc) : Obj :=
  <["startTime" := VTime (doc_startTime d)]>
    (<["lastModified" := VTime (doc_lastModified d)]> (doc_rest d)).

(** The document that holds [fields] under [id]. *)
Definition document (id : string) (fields : Obj) : option ServerDoc :=
  match fields !! "startTime", fields !! "lastModified" with
  | Some (VTime startTime), Some (VTime lastModified) =>
      Some {| doc_id := id; doc_startTime := startTime;
              doc_lastModified := lastModified; doc_rest := fields |}
  | _, _ => None
  end.

(** The cast of a value to an [_id]. *)
Definition castId (e : Env) (v : Value) : option string :=
  match v with
  | VStr s => if negb (String.eqb s "") && isObjectId (runtime e) s
              then Some s else None
  | _ => None
  end.

(** [Activity.findById(id)]: the promise is rejected when [id] cannot be
    an [ObjectId]. *)
Definition findById (e : Env) (id : string) (docs : list ServerDoc)
    : option (option ServerDoc) :=
  match castId e (VStr id) with
  | Some _ => Some (List.find (λ d, bool_decide (doc_id d = id)) docs)
  | None => None
  end.

(** [timestamps: true] on a new document: [createdAt] is the time read
    unless the document has one, and [updatedAt] is [createdAt]. *)
Definition stamp_new (stamp : Z) (fields : Obj) : Obj :=
  let createdAt := match fields !! "createdAt" with
                   | None | Some VNull => VTime stamp
                   | Some v => v
                   end in
  <["updatedAt" := createdAt]> (<["createdAt" := createdAt]> fields).

(** The pre-save hook: the statistics, then [lastModified]. *)
Definition pre_save (fields : Obj) : M Obj :=
  let* e := env in
  let fields := calculateStats e fields in
  let* t := now in
  ret (<["lastModified" := VTime t]> fields).

(** [Activity.create(data)]: the document is constructed (the properties
    of [data] set, the [_id] taken from [data] or generated, the defaults
    filled in; the default of [name] throws when [type] is [undefined]),
    validated, stamped, run through the pre-save hook and inserted; MongoDB
    refuses a second document under one [_id]. *)
Definition create (data : Obj) : M (SaveResult ServerDoc) :=
  let* e := env in
  let '(fields, errors) := assign e data ∅ in
  let fields := constants fields in
  let* id :=
    match data !! "_id" with
    | None => λ e w, (Ok (Some (objectId e (objectIds w))),
                      set_objectIds (S (objectIds w)) w)
    | Some v => ret (castId e v)
    end in
  if bool_decide (fields !! "name" = None) && unset (fields !! "type")
  then ret OtherError
  else
    match id with
    | Some id =>
        if bool_decide (errors = []) && validate fields then
          let fields := name_default e fields in
          let* stamp := gets (λ w, currentTime (runtime e) (ticks w)) in
          let* fields := pre_save (stamp_new stamp fields) in
          let* docs := gets server in
          match document id fields,
                List.find (λ d, bool_decide (doc_id d = id)) docs with
          | Some activity, None =>
              modify (set_server (λ docs, docs ++ [activity]));;
              ret (Saved activity)
          | _, _ => ret OtherError
          end
        else ret ValidationError
    | None => ret ValidationError
    end.

(** [Object.assign(activity, body); activity.lastModified = new Date();
    await activity.save()] on a document that was found: the properties of
    [body] are set ([createdAt] cannot be changed), the document is
    validated, stamped, run through the pre-save hook and written back;
    MongoDB refuses a change of [_id]. *)
Definition assign_and_save (activity : ServerDoc) (body : Obj)
    : M (SaveResult ServerDoc) :=
  let* e := env in
  let '(fields, errors) := assign e (base.delete "createdAt" body) (fields_of activity) in
  let id := match body !! "_id" with
            | None => Some (doc_id activity)
            | Some v => castId e v
            end in
  let* t := now in
  let fields := <["lastModified" := VTime t]> fields in
  match id with
  | Some id =>
      if bool_decide (errors = []) && validate fields then
        let* stamp := gets (λ w, currentTime (runtime e) (ticks w)) in
        let fields := <["updatedAt" := VTime stamp]> fields in
        let* fields := pre_save fields in
        match document (doc_id activity) fields with
        | Some activity' =>
            if bool_decide (id = doc_id activity) then
              modify (set_server
                        (fmap (λ d, if bool_decide (doc_id d = doc_id activity)
                                    then activity' else d)));;
              ret (Saved activity')
            else ret OtherError
        | None => ret OtherError
        end
      else ret ValidationError
  | None => ret ValidationError
  end.

End Activity.

(** ** The backend: activity controller *)

(** What a handler answers: a 2xx body, or an error status. *)
Inductive Response (A : Type) :=
| Success (body : A)
| Failure (status : string).
Arguments Success {A} body.
Arguments Failure {A} status.

(** The query string of [GET /api/activities]. *)
Record Query := {
  q_type : option string;
  q_startDate : option Z;
  q_endDate : option Z;
  q_sortBy : option string;
  q_limit : option nat
}.

Module Backend.

(** [query]: [userId] is always ['default-user']. *)
Definition matches (q : Query) (d : ServerDoc) : bool :=
  bool_decide (doc_rest d !! "userId" = Some (VStr "default-user"))
  && match q_type q with
     | Some ty => bool_decide (doc_rest d !! "type" = Some (VStr ty))
     | None => true
     end
  && match q_startDate q with
     | Some t => (t <=? doc_startTime d)%Z
     | None => true
     end
  && match q_endDate q with
     | Some t => (doc_startTime d <=? t)%Z
     | None => true
     end.

(** [.sort('-startTime')] *)
Definition newest_first (l : list ServerDoc) : list ServerDoc :=
  merge_sort (λ a b, (doc_startTime b <=? doc_startTime a)%Z) l.

(** [.sort(sortBy)]: the default, newest start first, or the order of the
    paths that [sortBy] names. *)
Definition sort (e : Env) (sortBy : string) (l : list ServerDoc) : list ServerDoc :=
  if String.eqb sortBy "-startTime" then newest_first l
  else merge_sort (sortOrder (runtime e) sortBy) l.

(** [.limit(n)]; MongoDB reads a limit of 0 as no limit. *)
Definition limit (n : nat) (l : list ServerDoc) : list ServerDoc :=
  match n with
  | 0 => l
  | _ => take n l
  end.

(** [exports.getActivities]; with a query whose dates are dates and whose
    limit is a number, [Activity.find] is not rejected. *)
Definition getActivities (q : Query) : M (Response (list ServerDoc)) :=
  let* e := env in
  let* docs := gets server in
  ret (Success (limit (default 50 (q_limit q))
                  (sort e (default "-startTime" (q_sortBy q))
                     (filter (λ d, matches q d) docs)))).

Definition findById (id : string) (docs : list ServerDoc) : option ServerDoc :=
  List.find (λ d, bool_decide (doc_id d = id)) docs.

(** [exports.createActivity]; a [duration] that is worked out from two
    dates of which one is invalid is [NaN], which fails the cast of the
    path. *)
Definition createActivity (body : Obj) : M (Response ServerDoc) :=
  let activityData := <["userId" := VStr "default-user"]> body in
  if negb (truthy (activityData !! "type"))
     || negb (truthy (activityData !! "startTime"))
     || negb (truthy (activityData !! "endTime"))
  then ret (Failure "400")
  else
    let activityData :=
      if truthy (activityData !! "duration") then Some activityData
      else match dateOf (activityData !! "startTime"),
                 dateOf (activityData !! "endTime") with
           | Some s, Some e =>
               Some (<["duration" := VNum ((e - s) / 1000)]> activityData)
           | _, _ => None
           end in
    match activityData with
    | None => ret (Failure "400")
    | Some activityData =>
        let* r := Activity.create activityData in
        match r with
        | Saved activity => ret (Success activity)
        | ValidationError => ret (Failure "400")
        | OtherError => ret (Failure "500")
        end
    end.

(** [exports.updateActivity] *)
Definition updateActivity (id : string) (body : Obj) : M (Response ServerDoc) :=
  let* e := env in
  let* docs := gets server in
  match Activity.findById e id docs with
  | None => ret (Failure "500")
  | Some None => ret (Failure "404")
  | Some (Some activity) =>
      let* r := Activity.assign_and_save activity body in
      match r with
      | Saved activity => ret (Success activity)
      | ValidationError => ret (Failure "400")
      | OtherError => ret (Failure "500")
      end
  end.

(** [exports.getActivity] *)
Definition getActivity (id : string) : M (Response ServerDoc) :=
  let* e := env in
  let* docs := gets server in
  match Activity.findById e id docs with
  | None => ret (Failure "500")
  | Some None => ret (Failure "404")
  | Some (Some activity) => ret (Success activity)
  end.

(** [exports.deleteActivity] *)
Definition deleteActivity (id : string) : M (Response unit) :=
  let* e := env in
  let* docs := gets server in
  match Activity.findById e id docs with
  | None => ret (Failure "500")
  | Some None => ret (Failure "404")
  | Some (Some _) =>
      modify (set_server (filter (λ d, doc_id d ≠ id)));;
      ret (Success tt)
  end.

End Backend.

(** ** APIService *)

(** The [filters] argument of [apiService.getActivities]. *)
Record Filters := {
  f_type : option string;
  f_startDate : option Z;
  f_endDate : option Z;
  f_sortBy : option string;
  f_limit : option nat
}.

Definition no_filters : Filters :=
  {| f_type := None; f_startDate := None; f_endDate := None;
     f_sortBy := None; f_limit := None |}.

Module APIService.

(** One axios round trip: the promise is rejected when the request is not
    served and when the answer is not a 2xx. *)
Definition request {A} (handler : M (Response A)) : M A :=
  let* served := (λ e w, (Ok (net e (requests w)),
                          set_requests (S (requests w)) w)) in
  if served : bool then
    let* r := handler in
    match r with
    | Success body => ret body
    | Failure status => throw ("Request failed with status code " +:+ status)
    end
  else throw "Network Error".

(** [healthCheck()] *)
Definition healthCheck : M unit :=
  try_catch (request (ret (Success tt)))
            (λ _, throw "Backend is not reachable").

(** [getActivities(filters)] *)
Definition getActivities (filters : Filters) : M (list Obj) :=
  let* docs := request (Backend.getActivities
    {| q_type := match f_type filters with
                 | Some "" => None
                 | t => t
                 end;
       q_startDate := f_startDate filters;
       q_endDate := f_endDate filters;
       q_sortBy := match f_sortBy filters with
                   | Some "" => None
                   | sortBy => sortBy
                   end;
       q_limit := match f_limit filters with
                  | Some 0 => None
                  | n => n
                  end |}) in
  ret (toJSON <$> docs).

(** [getActivity(id)] *)
Definition getActivity (id : string) : M Obj :=
  let* doc := request (Backend.getActivity id) in
  ret (toJSON doc).

(** [createActivity(activity)] *)
Definition createActivity (activity : Obj) : M Obj :=
  let* doc := request (Backend.createActivity activity) in
  ret (toJSON doc).

(** [updateActivity(id, updates)]; an identifier that is not a text names
    no document. *)
Definition updateActivity (id : Value) (updates : option Obj) : M Obj :=
  let* doc := request (match id with
                       | VStr s => Backend.updateActivity s (default ∅ updates)
                       | _ => ret (Failure "500")
                       end) in
  ret (toJSON doc).

(** [deleteActivity(id)] *)
Definition deleteActivity (id : Value) : M unit :=
  request (match id with
           | VStr s => Backend.deleteActivity s
           | _ => ret (Failure "500")
           end).

End APIService.

(** ** SyncService *)

(** [results] of [processSyncQueue]. *)
Record PushResults := {
  push_success : nat;
  push_failed : nat;
  push_errors : list (nat * string)
}.

(** [results] of [pullFromServer]. *)
Record PullResults := {
  added : nat;
  updated : nat;
  conflicts : nat
}.

(** What [sync()] resolves to. *)
Record SyncResult := {
  success : bool;
  message : string;
  results : option (PushResults * PullResults)
}.

Module SyncService.

(** [isOnline()] *)
Definition isOnline : M bool := gets onLine.

(** [syncCreate(item)]; [response.data._id] is the [_id] of the document
    in the answer. *)
Definition syncCreate (item : nat * QueueItem) : M unit :=
  let* activity := ActivityDB.getById (activityId item.2) in
  match activity with
  | None => throw "Activity not found locally"
  | Some activity =>
      let* response := APIService.createActivity activity in
      ActivityDB.markSynced (activityId item.2) (response !! "_id")
  end.

(** [syncUpdate(item)] *)
Definition syncUpdate (item : nat * QueueItem) : M unit :=
  let* activity := ActivityDB.getById (activityId item.2) in
  match activity with
  | None => throw "Activity not found locally"
  | Some activity =>
      match activity !! "serverId" with
      | Some serverId =>
          if truthy (Some serverId) then
            APIService.updateActivity serverId (data item.2);;
            ActivityDB.markSynced (activityId item.2) (Some serverId)
          else throw "Cannot update activity without server ID"
      | None => throw "Cannot update activity without server ID"
      end
  end.

(** [syncDelete(item)] *)
Definition syncDelete (item : nat * QueueItem) : M unit :=
  let* activity := ActivityDB.getById (activityId item.2) in
  match activity ≫= (.!! "serverId") with
  | Some serverId =>
      if truthy (Some serverId) then APIService.deleteActivity serverId
      else ret tt
  | None => ret tt
  end.

(** The body of the loop of [processSyncQueue]: [item] is the copy of the
    row that [SyncQueueDB.getAll()] returned, [item.1] its key. *)
Definition processItem (item : nat * QueueItem) (results : PushResults) : M PushResults :=
  try_catch
    (match operation item.2 with
     | op_create => syncCreate item
     | op_update => syncUpdate item
     | op_delete => syncDelete item
     end;;
     SyncQueueDB.remove item.1;;
     ret {| push_success := push_success results + 1;
            push_failed := push_failed results;
            push_errors := push_errors results |})
    (λ error,
       SyncQueueDB.incrementRetry item.1;;
       let results := {| push_success := push_success results;
                         push_failed := push_failed results + 1;
                         push_errors := push_errors results ++ [(item.1, error)] |} in
       (if 5 <=? retryCount item.2
        then SyncQueueDB.remove item.1
        else ret tt);;
       ret results).

(** [processSyncQueue()] *)
Definition processSyncQueue : M PushResults :=
  let* queue := SyncQueueDB.getAll in
  for_of queue processItem
    {| push_success := 0; push_failed := 0; push_errors := [] |}.

(** The body of the loop of [pullFromServer]. *)
Definition pullItem (serverActivity : Obj) (results : PullResults) : M PullResults :=
  let* localActivities := ActivityDB.getAll ∅ in
  let fromServer :=
    <["syncStatus" := VStr "synced"]>
      (match serverActivity !! "_id" with
       | Some v => <["serverId" := v]> serverActivity
       | None => base.delete "serverId" serverActivity
       end) in
  match List.find (λ a : nat * Obj,
                     bool_decide (a.2 !! "serverId" = serverActivity !! "_id"))
                  localActivities with
  | Some localActivity =>
      let serverModified := dateOf (serverActivity !! "lastModified") in
      let localModified := dateOf (localActivity.2 !! "lastModified") in
      let results :=
        if dateGt serverModified localModified
           && bool_decide (localActivity.2 !! "syncStatus" = Some (VStr "pending"))
        then {| added := added results; updated := updated results;
                conflicts := conflicts results + 1 |}
        else results in
      if dateGt serverModified localModified then
        ActivityDB.update localActivity.1 fromServer;;
        ret {| added := added results; updated := updated results + 1;
               conflicts := conflicts results |}
      else ret results
  | None =>
      ActivityDB.add fromServer;;
      ret {| added := added results + 1; updated := updated results;
             conflicts := conflicts results |}
  end.

(** [pullFromServer()] *)
Definition pullFromServer : M PullResults :=
  try_catch
    (let* lastSync := SettingsDB.get_lastSync in
     let filters :=
       match lastSync with
       | Some t => {| f_type := None; f_startDate := Some t;
                      f_endDate := None; f_sortBy := None; f_limit := None |}
       | None => no_filters
       end in
     let* serverActivities := APIService.getActivities filters in
     for_of serverActivities pullItem
       {| added := 0; updated := 0; conflicts := 0 |})
    (λ error, throw error).

(** [sync()] *)
Definition sync : M SyncResult :=
  let* busy := gets isSyncing in
  if busy : bool then
    ret {| success := false; message := "Sync already in progress";
           results := None |}
  else
    let* online := isOnline in
    if negb online then
      ret {| success := false; message := "Device is offline"; results := None |}
    else
      modify (set_isSyncing true);;
      try_finally
        (try_catch
           (try_catch APIService.healthCheck
                      (λ _, throw "Backend is not reachable");;
            let* syncResults := processSyncQueue in
            let* pullResults := pullFromServer in
            let* t := now in
            SettingsDB.set_lastSync t;;
            ret {| success := true; message := "Sync completed";
                   results := Some (syncResults, pullResults) |})
           (λ error,
              ret {| success := false; message := error; results := None |}))
        (set_isSyncing false).

(** [forceSync()]; it resolves to the number of activities downloaded. *)
Definition forceSync : M nat :=
  let* online := isOnline in
  if negb online then throw "Cannot force sync while offline"
  else
    try_catch
      (SyncQueueDB.clear;;
       let* serverActivities :=
         APIService.getActivities
           {| f_type := None; f_startDate := None; f_endDate := None;
              f_sortBy := None; f_limit := Some 1000 |} in
       let* localActivities := ActivityDB.getAll ∅ in
       for_of localActivities (λ activity _, ActivityDB.delete activity.1) tt;;
       for_of serverActivities
         (λ serverActivity _,
            ActivityDB.add
              (<["syncStatus" := VStr "synced"]>
                 (match serverActivity !! "_id" with
                  | Some v => <["serverId" := v]> serverActivity
                  | None => base.delete "serverId" serverActivity
                  end));;
            ret tt) tt;;
       let* t := now in
       SettingsDB.set_lastSync t;;
       ret (length serverActivities))
      (λ error, throw error).

End SyncService.

(** The [switch] of the loop body of [processSyncQueue]: the operation of a
    queue entry. *)
Definition dispatch (item : nat * QueueItem) : M unit :=
  match operation item.2 with
  | op_create => SyncService.syncCreate item
  | op_update => SyncService.syncUpdate item
  | op_delete => SyncService.syncDelete item
  end.

(** ** Predicates on worlds, and the worlds of the examples *)

(** The key generators are ahead of every key in use, which is what
    auto-increment guarantees. *)
Definition fresh_keys (w : World) : Prop :=
  map_Forall (λ k _, k < activitiesNext w) (activities w)
  ∧ map_Forall (λ k _, k < syncQueueNext w) (syncQueue w).

#[global] Instance fresh_keys_dec w : Decision (fresh_keys w).
Proof. unfold fresh_keys. apply _. Defined.

(** From [w0] to [w] no key generator has moved back. *)
Definition not_rewound (w0 w : World) : Prop :=
  activitiesNext w0 ≤ activitiesNext w ∧ syncQueueNext w0 ≤ syncQueueNext w.

(** A record marked ['synced'] carries a remote identifier. *)
Definition synced_has_serverId (w : World) : Prop :=
  ∀ id row,
    activities w !! id = Some row →
    row !! "syncStatus" = Some (VStr "synced") →
    truthy (row !! "serverId") = true.

(** The world a computation leaves. *)
Definition exec {A} (m : M A) (e : Env) (w : World) : World := (m e w).2.

(** What the application and its surroundings can do to a world. *)
Inductive Action :=
| do_add (activity : Obj)
| do_update (id : nat) (updates : Obj)
| do_delete (id : nat)
| do_markSynced (id : nat) (serverId : Value)
| do_clearQueue
| do_processSyncQueue
| do_pullFromServer
| do_sync
| do_forceSync
| do_connectivity (online : bool)
| do_remote (docs : list ServerDoc).

(** [markSynced] is called by the sync service only, with the identifier the
    backend answered or with the truthy [serverId] of the record. *)
Definition act (e : Env) (a : Action) (w : World) : World :=
  match a with
  | do_add activity => exec (ActivityDB.add activity) e w
  | do_update id updates => exec (ActivityDB.update id updates) e w
  | do_delete id => exec (ActivityDB.delete id) e w
  | do_markSynced id serverId =>
      if truthy (Some serverId)
      then exec (ActivityDB.markSynced id (Some serverId)) e w
      else w
  | do_clearQueue => exec SyncQueueDB.clear e w
  | do_processSyncQueue => exec SyncService.processSyncQueue e w
  | do_pullFromServer => exec SyncService.pullFromServer e w
  | do_sync => exec SyncService.sync e w
  | do_forceSync => exec SyncService.forceSync e w
  | do_connectivity online =>
      {| activities := activities w; activitiesNext := activitiesNext w;
         syncQueue := syncQueue w; syncQueueNext := syncQueueNext w;
         lastSync := lastSync w; isSyncing := isSyncing w; onLine := online;
         server := server w; objectIds := objectIds w; ticks := ticks w;
         requests := requests w |}
  | do_remote docs => set_server (λ _, docs) w
  end.

(** A freshly opened database, before any activity was recorded. *)
Definition empty_db : World :=
  {| activities := ∅; activitiesNext := 1;
     syncQueue := ∅; syncQueueNext := 1;
     lastSync := None; isSyncing := false; onLine := true;
     server := []; objectIds := 0; ticks := 0; requests := 0 |}.

Definition run_actions (e : Env) (l : list Action) (w : World) : World :=
  foldl (λ w a, act e a w) w l.

(** The libraries of the examples.  Every identifier can be an [ObjectId],
    no value is converted to another type (the examples hand each path a
    value of its type), a quotient is the whole number it is when there is
    one (the examples divide nothing else), a route gains nothing, and the
    timestamps of Mongoose read the clock of the code. *)
Definition plain : Runtime :=
  {| isObjectId := λ _, true;
     convert := λ _ _, None;
     divide := λ a b,
       match a, b with
       | VNum x, VNum y => if (x mod y =? 0)%Z then VNum (x / y) else VNull
       | _, _ => VNull
       end;
     routeGain := λ _, None;
     toLocaleDateString := λ _, "1/1/1970";
     currentTime := λ n, (1000 + Z.of_nat n)%Z;
     sortOrder := λ _ _ _, true |}.

(** An environment in which every request is served, and one in which none
    is. *)
Definition served : Env :=
  {| clock := λ n, (1000 + Z.of_nat n)%Z;
     net := λ _, true;
     objectId := λ n, "srv" +:+ pretty.pretty n;
     runtime := plain |}.

Definition refused : Env :=
  {| clock := λ n, (1000 + Z.of_nat n)%Z;
     net := λ _, false;
     objectId := λ n, "srv" +:+ pretty.pretty n;
     runtime := plain |}.

Definition a_run : Obj :=
  <["type" := VStr "run"]>
    (<["startTime" := VTime 10]>
       (<["endTime" := VTime 3600010]>
          (<["distance" := VNum 3000]> (<["duration" := VNum 3600]> ∅)))).

(** A device that recorded one run and pushed it: the record is synced and
    references the document the backend created. *)
Definition pushed_db : World :=
  exec SyncService.processSyncQueue served (exec (ActivityDB.add a_run) served empty_db).

Definition note (text : string) : Obj := <["notes" := VStr text]> ∅.

(** The user edits the pushed record and then deletes it. *)
Definition edited_then_deleted : World :=
  exec (ActivityDB.delete 1) served
    (exec (ActivityDB.update 1 (note "mine")) served pushed_db).

(** The user edits the pushed record; afterwards another client edits the
    same document on the backend. *)
Definition edited_on_both_sides : World :=
  exec (Backend.updateActivity "srv0" (note "theirs")) served
    (exec (ActivityDB.update 1 (note "mine")) served pushed_db).

(** A document that some other client created. *)
Definition remote_run : ServerDoc :=
  {| doc_id := "srv9"; doc_startTime := 10; doc_lastModified := 200;
     doc_rest := <["userId" := VStr "default-user"]> a_run |}.

(** A fresh device facing a backend that holds [remote_run]. *)
Definition fresh_device : World := set_server (λ _, [remote_run]) empty_db.



(** An environment in which the health probe and the list request are
    served and every create is refused, for a queue that holds one create:
    a cycle makes three requests while the entry is queued. *)
Definition create_refused : Env :=
  {| clock := λ n, (1000 + Z.of_nat n)%Z;
     net := λ n, negb (n mod 3 =? 1);
     objectId := λ n, "srv" +:+ pretty.pretty n;
     runtime := plain |}.

(** [n] sync cycles in a row. *)
Definition cycles (e : Env) (n : nat) (w : World) : World :=
  Nat.iter n (exec SyncService.sync e) w.


(** The document is the user's and started at or after the last sync, if
    there was one. *)
Definition started_since (lastSync : option Z) (d : ServerDoc) : Prop :=
  doc_rest d !! "userId" = Some (VStr "default-user")
  ∧ match lastSync with
    | Some t => (t ≤ doc_startTime d)%Z
    | None => True
    end.

#[global] Instance started_since_dec lastSync d : Decision (started_since lastSync d).
Proof. unfold started_since. destruct lastSync; apply _. Defined.


(** ** The backend: the API key in front of every route *)

(** What the middleware does with a request: hand it on, or answer with an
    error status. *)
Inductive AuthResult :=
| auth_next
| auth_denied (status : string) (error : string).

(** [apiKeyAuth]: [header] is [req.header('X-API-Key')], [API_KEY] is
    [process.env.API_KEY]; both are [undefined] when [None]. *)
Definition apiKeyAuth (header API_KEY : option string) : AuthResult :=
  match header with
  | None => auth_denied "401" "Access denied. No API key provided."
  | Some apiKey =>
      if String.eqb apiKey ""
      then auth_denied "401" "Access denied. No API key provided."
      else if bool_decide (Some apiKey = API_KEY) then auth_next
           else auth_denied "403" "Invalid API key"
  end.

(** [router.use(apiKeyAuth)] in front of a handler of the router. *)
Definition protected {A} (header API_KEY : option string)
    (handler : M (Response A)) : M (Response A) :=
  match apiKeyAuth header API_KEY with
  | auth_next => handler
  | auth_denied status _ => ret (Failure status)
  end.

(** ** The timer of the sync service *)

(** The [syncInterval] field of the service and the interval timers of the
    page: each timer has a handle and a period in milliseconds; handles are
    positive and never handed out twice. *)
Record Scheduler := {
  syncInterval : option nat;
  timers : gmap nat Z;
  nextHandle : nat
}.

(** [clearInterval(handle)] *)
Definition clearInterval (handle : nat) (s : Scheduler) : Scheduler :=
  {| syncInterval := syncInterval s; timers := base.delete handle (timers s);
     nextHandle := nextHandle s |}.

(** [if (this.syncInterval)]: a handle is truthy unless it is 0. *)
Definition armed (s : Scheduler) : option nat :=
  match syncInterval s with
  | Some 0 | None => None
  | Some handle => Some handle
  end.

(** [startAutoSync(intervalMinutes)]; the [sync()] it starts is run to its
    end and its result is dropped, as the code drops the promise. *)
Definition startAutoSync (intervalMinutes : Z) (s : Scheduler) : M Scheduler :=
  let s := match armed s with
           | Some handle => clearInterval handle s
           | None => s
           end in
  let s := {| syncInterval := Some (nextHandle s);
              timers := <[nextHandle s := (intervalMinutes * 60 * 1000)%Z]> (timers s);
              nextHandle := S (nextHandle s) |} in
  SyncService.sync;;
  ret s.

(** [stopAutoSync()] *)
Definition stopAutoSync (s : Scheduler) : Scheduler :=
  match armed s with
  | Some handle =>
      {| syncInterval := None; timers := base.delete handle (timers s);
         nextHandle := nextHandle s |}
  | None => s
  end.

(** The service as the page loads it. *)
Definition idle : Scheduler :=
  {| syncInterval := None; timers := ∅; nextHandle := 1 |}.

(** What the settings page does to the timer. *)
Inductive TimerAction :=
| do_start (intervalMinutes : Z)
| do_stop.

Definition timer_act (e : Env) (a : TimerAction) (sw : Scheduler * World)
    : Scheduler * World :=
  match a with
  | do_start intervalMinutes =>
      match startAutoSync intervalMinutes sw.1 e sw.2 with
      | (Ok s, w) => (s, w)
      | (Throw _, w) => (sw.1, w)
      end
  | do_stop => (stopAutoSync sw.1, sw.2)
  end.

(** What holds of the timer between two actions: the handle remembered is
    positive and names the only timer. *)
Definition timer_ok (s : Scheduler) : Prop :=
  0 < nextHandle s
  ∧ match syncInterval s with
    | Some handle => 0 < handle < nextHandle s ∧ ∃ period, timers s = {[handle := period]}
    | None => timers s = ∅
    end.

(** The order in which [SyncQueueDB.getAll()] lists two entries: by
    [timestamp], entries of one timestamp by key. *)
Definition queue_before (x y : nat * QueueItem) : Prop :=
  (timestamp x.2 < timestamp y.2)%Z
  ∨ (timestamp x.2 = timestamp y.2 ∧ x.1 ≤ y.1).

(** ** What the backend stores and lists *)

(** The paths of the document [Activity.create] stores for a body whose
    properties set [fields], created in the world [w]. *)
Abbreviation created e w fields :=
  (<["lastModified" := VTime (clock e (ticks w))]>
     (Activity.calculateStats e
        (Activity.stamp_new (currentTime (runtime e) (ticks w))
           (Activity.name_default e (Activity.constants fields))))).

(** What [save()] writes back for a Activity.document whose paths hold [fields]
    after [Object.assign]. *)
Abbreviation saved e w fields :=
  (<["lastModified" := VTime (clock e (S (ticks w)))]>
     (Activity.calculateStats e
        (<["updatedAt" := VTime (currentTime (runtime e) (S (ticks w)))]>
           (<["lastModified" := VTime (clock e (ticks w))]> fields)))).







(** The three results of a cycle that stops before it starts. *)
Definition busy_result : SyncResult :=
  {| success := false; message := "Sync already in progress"; results := None |}.

Definition offline_result : SyncResult :=
  {| success := false; message := "Device is offline"; results := None |}.

Definition unreachable_result : SyncResult :=
  {| success := false; message := "Backend is not reachable"; results := None |}.

(** [keeps Inv e m Q]: run from a world where [Inv] holds, [m] leaves a world
    where [Inv] holds, whether it returns or throws, and what it returns
    satisfies [Q]. *)
Definition keeps {A} (Inv : World → Prop) (e : Env) (m : M A) (Q : A → Prop) : Prop :=
  ∀ w, Inv w →
       match m e w with
       | (Ok a, w') => Inv w' ∧ Q a
       | (Throw _, w') => Inv w'
       end.

(** * Properties *)

(** ** The record store *)

Lemma fresh_activity_key w :
  fresh_keys w → activities w !! activitiesNext w = None.
Proof.
  intros [H _]. destruct (activities w !! activitiesNext w) eqn:E; [|done].
  apply H in E. lia.
Qed.

Lemma fresh_queue_key w :
  fresh_keys w → syncQueue w !! syncQueueNext w = None.
Proof.
  intros [_ H]. destruct (syncQueue w !! syncQueueNext w) eqn:E; [|done].
  apply H in E. lia.
Qed.

(** What [ActivityDB.add] leaves and returns. *)
Lemma add_spec e w (activity : Obj) :
  ActivityDB.add activity e w =
  (Ok (activitiesNext w),
   set_syncQueueNext (S (syncQueueNext w))
     (set_syncQueue
        <[syncQueueNext w :=
            {| operation := op_create; activityId := activitiesNext w;
               data := Some activity; timestamp := clock e (S (ticks w));
               retryCount := 0; lastAttempt := None |}]>
        (set_ticks (S (S (ticks w)))
           (set_activitiesNext (S (activitiesNext w))
              (set_activities
                 <[activitiesNext w :=
                     <["lastModified" := VTime (clock e (ticks w))]>
                       (<["syncStatus" := VStr "pending"]> activity)]> w))))).
Proof. reflexivity. Qed.

(** What [ActivityDB.update] leaves. *)
Lemma update_spec e w id (updates : Obj) :
  ActivityDB.update id updates e w =
  (Ok tt,
   set_syncQueueNext (S (syncQueueNext w))
     (set_syncQueue
        <[syncQueueNext w :=
            {| operation := op_update; activityId := id;
               data := Some updates; timestamp := clock e (S (ticks w));
               retryCount := 0; lastAttempt := None |}]>
        (set_ticks (S (S (ticks w)))
           (set_activities
              (alter (λ row, <["lastModified" := VTime (clock e (ticks w))]>
                               (<["syncStatus" := VStr "pending"]> updates) ∪ row) id)
              w)))).
Proof. reflexivity. Qed.

(** What [ActivityDB.delete] leaves. *)
Lemma delete_spec e w id :
  ActivityDB.delete id e w =
  (Ok tt,
   set_syncQueueNext (S (syncQueueNext w))
     (set_syncQueue
        <[syncQueueNext w :=
            {| operation := op_delete; activityId := id;
               data := None; timestamp := clock e (ticks w);
               retryCount := 0; lastAttempt := None |}]>
        (set_ticks (S (ticks w))
           (set_activities (delete id) w)))).
Proof. reflexivity. Qed.

(** The two properties every stored write carries, whatever the caller put
    under them. *)
Lemma stamped_lookup (o : Obj) t :
  let row := <["lastModified" := VTime t]> (<["syncStatus" := VStr "pending"]> o) in
  row !! "syncStatus" = Some (VStr "pending")
  ∧ row !! "lastModified" = Some (VTime t)
  ∧ ∀ k, k ≠ "syncStatus" → k ≠ "lastModified" → row !! k = o !! k.
Proof.
  simpl. split; [|split].
  - rewrite lookup_insert_ne by done. apply lookup_insert_eq.
  - apply lookup_insert_eq.
  - intros k H1 H2. by rewrite !lookup_insert_ne.
Qed.

(** C10. [ActivityDB.add] and [ActivityDB.update] store the record with
    [syncStatus = 'pending'] and with the time read during the call as
    [lastModified], whatever [syncStatus] or [lastModified] the caller gave
    in the record or in the patch; every other property is the caller's
    (for [update], the caller's where the patch names it and the stored one
    elsewhere); and each call adds exactly one entry to the sync queue, under
    a key that was free, a ['create'] for [add] and an ['update'] for
    [update].  [update] of an identifier that names no record stores nothing
    and still adds its entry. *)
Theorem add_update_store_pending_and_enqueue
    (e : Env) (w : World) (record : Obj) (id : nat) (patch : Obj) :
  fresh_keys w →
  (∃ w' row,
      ActivityDB.add record e w = (Ok (activitiesNext w), w')
      ∧ activities w !! activitiesNext w = None
      ∧ activities w' = <[activitiesNext w := row]> (activities w)
      ∧ row !! "syncStatus" = Some (VStr "pending")
      ∧ row !! "lastModified" = Some (VTime (clock e (ticks w)))
      ∧ (∀ k, k ≠ "syncStatus" → k ≠ "lastModified" → row !! k = record !! k)
      ∧ syncQueue w !! syncQueueNext w = None
      ∧ syncQueue w' =
          <[syncQueueNext w :=
              {| operation := op_create; activityId := activitiesNext w;
                 data := Some record; timestamp := clock e (S (ticks w));
                 retryCount := 0; lastAttempt := None |}]> (syncQueue w))
  ∧ (∃ w',
      ActivityDB.update id patch e w = (Ok tt, w')
      ∧ (∀ old, activities w !! id = Some old →
           ∃ row, activities w' = <[id := row]> (activities w)
                  ∧ row !! "syncStatus" = Some (VStr "pending")
                  ∧ row !! "lastModified" = Some (VTime (clock e (ticks w)))
                  ∧ (∀ k, k ≠ "syncStatus" → k ≠ "lastModified" →
                          row !! k = match patch !! k with
                                     | Some v => Some v
                                     | None => old !! k
                                     end))
      ∧ (activities w !! id = None → activities w' = activities w)
      ∧ syncQueue w !! syncQueueNext w = None
      ∧ syncQueue w' =
          <[syncQueueNext w :=
              {| operation := op_update; activityId := id;
                 data := Some patch; timestamp := clock e (S (ticks w));
                 retryCount := 0; lastAttempt := None |}]> (syncQueue w)).
Proof.
  intros Hfresh. split.
  - rewrite add_spec. eexists _, _. split; [reflexivity|].
    split; [by apply fresh_activity_key|].
    split; [reflexivity|].
    destruct (stamped_lookup record (clock e (ticks w))) as (H1 & H2 & H3).
    split_and!; auto using fresh_queue_key.
  - rewrite update_spec. eexists. split; [reflexivity|].
    split; [|split; [|split]]; simpl.
    + intros old Hold.
      destruct (stamped_lookup patch (clock e (ticks w))) as (H1 & H2 & H3).
      eexists. split; [|split; [|split]].
      * apply map_eq. intros k. destruct (decide (k = id)) as [->|Hne].
        -- rewrite lookup_alter_eq, Hold, lookup_insert_eq. reflexivity.
        -- rewrite lookup_alter_ne, lookup_insert_ne by done. reflexivity.
      * rewrite lookup_union_l'; [done|]. rewrite H1. eauto.
      * rewrite lookup_union_l'; [done|]. rewrite H2. eauto.
      * intros k Hk1 Hk2. rewrite lookup_union, H3 by done.
        destruct (patch !! k), (old !! k); reflexivity.
    + intros Hnone. apply map_eq. intros k.
      destruct (decide (k = id)) as [->|Hne].
      * by rewrite lookup_alter_eq, Hnone.
      * by rewrite lookup_alter_ne.
    + by apply fresh_queue_key.
    + reflexivity.
Qed.

Lemma add_update_store_pending_and_enqueue_witness :
  let w := exec (ActivityDB.add a_run) served empty_db in
  let patch : Obj := <["syncStatus" := VStr "synced"]> (<["lastModified" := VTime 5]> ∅) in
  fresh_keys w
  ∧ (∃ w' row,
        ActivityDB.add patch served w = (Ok (activitiesNext w), w')
        ∧ activities w' = <[activitiesNext w := row]> (activities w)
        ∧ row !! "syncStatus" = Some (VStr "pending")
        ∧ row !! "lastModified" = Some (VTime (clock served (ticks w))))
  ∧ (∃ w',
        ActivityDB.update 1 patch served w = (Ok tt, w')
        ∧ syncQueue w' =
            <[syncQueueNext w :=
                {| operation := op_update; activityId := 1;
                   data := Some patch; timestamp := clock served (S (ticks w));
                   retryCount := 0; lastAttempt := None |}]> (syncQueue w)).
Proof.
  intros w patch.
  assert (Hfresh : fresh_keys w)
    by (refine (bool_decide_unpack _ _); vm_compute; exact I).
  split; [exact Hfresh|].
  destruct (add_update_store_pending_and_enqueue served w patch 1 patch Hfresh)
    as [(w1 & row1 & Hadd & _ & Hact1 & Hs1 & Hm1 & _)
        (w2 & Hupd & _ & _ & _ & Hqueue)].
  split.
  - exists w1, row1. split_and!; assumption.
  - exists w2. split; assumption.
Defined.

(** ** A small program logic for invariants of the world *)

Lemma castId_nonempty e v s : Activity.castId e v = Some s → s ≠ "".
Proof.
  destruct v as [| | |s'|]; try done. cbn.
  destruct (String.eqb_spec s' ""); cbn; [done|].
  destruct (isObjectId _ _); [|done]. by intros [= <-].
Qed.

Lemma document_id id fields doc :
  Activity.document id fields = Some doc → doc_id doc = id.
Proof.
  unfold Activity.document.
  destruct (fields !! "startTime") as [[]|]; try done.
  destruct (fields !! "lastModified") as [[]|]; try done.
  by intros [= <-].
Qed.

Section Keeps.
Context (Inv : World → Prop) (e : Env).

Lemma keeps_ret {A} (a : A) (Q : A → Prop) : Q a → keeps Inv e (ret a) Q.
Proof. intros HQ w Hw. simpl. auto. Qed.

Lemma keeps_throw {A} x (Q : A → Prop) : keeps Inv e (throw x) Q.
Proof. intros w Hw. exact Hw. Qed.

Lemma keeps_gets {A} (f : World → A) : keeps Inv e (gets f) (λ _, True).
Proof. intros w Hw. simpl. auto. Qed.

Lemma keeps_env : keeps Inv e env (λ e', e' = e).
Proof. intros w Hw. simpl. auto. Qed.

Lemma keeps_bind {A B} (m : M A) (k : A → M B) Q R :
  keeps Inv e m Q → (∀ a, Q a → keeps Inv e (k a) R) → keeps Inv e (bind m k) R.
Proof.
  intros Hm Hk w Hw. unfold bind. specialize (Hm w Hw).
  destruct (m e w) as [[a|x] w']; [|exact Hm].
  destruct Hm as [Hw' Ha]. exact (Hk a Ha w' Hw').
Qed.

Lemma keeps_weaken {A} (m : M A) (Q R : A → Prop) :
  keeps Inv e m Q → (∀ a, Q a → R a) → keeps Inv e m R.
Proof.
  intros Hm HQR w Hw. specialize (Hm w Hw).
  destruct (m e w) as [[a|x] w']; [|exact Hm]. destruct Hm. auto.
Qed.

Lemma keeps_try_catch {A} (m : M A) h (Q : A → Prop) :
  keeps Inv e m Q → (∀ x, keeps Inv e (h x) Q) → keeps Inv e (try_catch m h) Q.
Proof.
  intros Hm Hh w Hw. unfold try_catch. specialize (Hm w Hw).
  destruct (m e w) as [[a|x] w']; [exact Hm|]. exact (Hh x w' Hm).
Qed.

Lemma keeps_for_of {A S} (l : list A) (body : A → S → M S) (s : S) :
  (∀ x s, x ∈ l → keeps Inv e (body x s) (λ _, True)) →
  keeps Inv e (for_of l body s) (λ _, True).
Proof.
  revert s. induction l as [|x l IH]; intros s Hbody; simpl.
  - by apply keeps_ret.
  - eapply keeps_bind.
    + apply Hbody. by left.
    + intros s' _. apply IH. intros y s'' Hy. apply Hbody. by right.
Qed.

Lemma keeps_modify (f : World → World) :
  (∀ w, Inv w → Inv (f w)) → keeps Inv e (modify f) (λ _, True).
Proof. intros Hf w Hw. simpl. auto. Qed.

(** The writes that leave the records alone. *)
Hypothesis Inv_ticks : ∀ w, Inv w → Inv (set_ticks (S (ticks w)) w).
Hypothesis Inv_requests : ∀ n w, Inv w → Inv (set_requests n w).
Hypothesis Inv_objectIds : ∀ n w, Inv w → Inv (set_objectIds n w).
Hypothesis Inv_server : ∀ f w, Inv w → Inv (set_server f w).
Hypothesis Inv_lastSync : ∀ v w, Inv w → Inv (set_lastSync v w).
Hypothesis Inv_syncQueue : ∀ f w, Inv w → Inv (set_syncQueue f w).
Hypothesis Inv_syncQueueNext :
  ∀ w, Inv w → Inv (set_syncQueueNext (S (syncQueueNext w)) w).

Lemma keeps_now : keeps Inv e now (λ _, True).
Proof. intros w Hw. simpl. auto. Qed.

Lemma keeps_syncQueue_add item : keeps Inv e (syncQueue_add item) (λ _, True).
Proof.
  intros w Hw. simpl. split; [|done].
  apply (Inv_syncQueueNext (set_syncQueue _ w)). auto.
Qed.

Lemma keeps_remove id : keeps Inv e (SyncQueueDB.remove id) (λ _, True).
Proof. apply keeps_modify. auto. Qed.

Lemma keeps_clear : keeps Inv e SyncQueueDB.clear (λ _, True).
Proof. apply keeps_modify. auto. Qed.

Lemma keeps_incrementRetry id : keeps Inv e (SyncQueueDB.incrementRetry id) (λ _, True).
Proof.
  unfold SyncQueueDB.incrementRetry. eapply keeps_bind; [apply keeps_gets|].
  intros [item|] _; [|by apply keeps_ret].
  eapply keeps_bind; [apply keeps_now|]. intros t _. apply keeps_modify. auto.
Qed.

Lemma keeps_request {A} (handler : M (Response A)) (Q : A → Prop) :
  keeps Inv e handler (λ r, match r with Success a => Q a | Failure _ => True end) →
  keeps Inv e (APIService.request handler) Q.
Proof.
  intros Hh. unfold APIService.request. eapply keeps_bind.
  - instantiate (1 := λ _, True). intros w Hw. simpl. auto.
  - intros [|] _; [|apply keeps_throw].
    eapply keeps_bind; [exact Hh|].
    intros [a|status] Ha; [by apply keeps_ret|apply keeps_throw].
Qed.

Lemma keeps_healthCheck : keeps Inv e APIService.healthCheck (λ _, True).
Proof.
  apply keeps_try_catch; [|intros; apply keeps_throw].
  apply keeps_request. by apply keeps_ret.
Qed.

Lemma keeps_getActivities filters :
  keeps Inv e (APIService.getActivities filters) (λ _, True).
Proof.
  unfold APIService.getActivities. eapply keeps_bind; [|intros; by apply keeps_ret].
  apply (keeps_request _ (λ _, True)). unfold Backend.getActivities.
  eapply keeps_bind; [apply keeps_env|]. intros e' _.
  eapply keeps_bind; [apply keeps_gets|]. intros docs _. by apply keeps_ret.
Qed.

Lemma keeps_pre_save fields : keeps Inv e (Activity.pre_save fields) (λ _, True).
Proof.
  unfold Activity.pre_save. eapply keeps_bind; [apply keeps_env|]. intros e' _.
  eapply keeps_bind; [apply keeps_now|]. intros; by apply keeps_ret.
Qed.

(** A document that was created carries an identifier of the store, or the
    identifier its body named, which is not empty. *)
Lemma keeps_create data :
  keeps Inv e (Activity.create data)
    (λ r, match r with
          | Saved doc => (∃ n, doc_id doc = objectId e n) ∨ doc_id doc ≠ ""
          | _ => True
          end).
Proof.
  unfold Activity.create. eapply keeps_bind; [apply keeps_env|]. intros e' ->.
  destruct (Activity.assign e data ∅) as [fields errors].
  eapply (keeps_bind _ _ (λ id, match id with
                                | Some s => (∃ n, s = objectId e n) ∨ s ≠ ""
                                | None => True
                                end)).
  { destruct (data !! "_id") as [v|].
    - apply keeps_ret. destruct (Activity.castId e v) as [s|] eqn:Hs; [|done].
      right. by apply castId_nonempty in Hs.
    - intros w Hw. simpl. split; [auto|]. left. eauto. }
  intros id Hid. destruct (_ && _); [by apply keeps_ret|].
  destruct id as [id|]; [|by apply keeps_ret].
  destruct (_ && _); [|by apply keeps_ret].
  eapply keeps_bind; [apply keeps_gets|]. intros stamp _.
  eapply keeps_bind; [apply keeps_pre_save|]. intros fields' _.
  eapply keeps_bind; [apply keeps_gets|]. intros docs _.
  destruct (Activity.document id fields') as [activity|] eqn:Hdoc;
    [|by apply keeps_ret].
  destruct (List.find _ docs); [by apply keeps_ret|].
  eapply keeps_bind; [apply keeps_modify; auto|]. intros _ _.
  apply keeps_ret. by rewrite (document_id _ _ _ Hdoc).
Qed.

(** A document that was saved keeps its identifier. *)
Lemma keeps_assign_and_save activity body :
  keeps Inv e (Activity.assign_and_save activity body)
    (λ r, match r with
          | Saved doc => doc_id doc = doc_id activity
          | _ => True
          end).
Proof.
  unfold Activity.assign_and_save.
  eapply keeps_bind; [apply keeps_env|]. intros e' ->.
  destruct (Activity.assign e _ _) as [fields errors].
  eapply keeps_bind; [apply keeps_now|]. intros t _.
  destruct (match body !! "_id" with Some _ => _ | None => _ end) as [id|];
    [|by apply keeps_ret].
  destruct (_ && _); [|by apply keeps_ret].
  eapply keeps_bind; [apply keeps_gets|]. intros stamp _.
  eapply keeps_bind; [apply keeps_pre_save|]. intros fields' _.
  destruct (Activity.document _ fields') as [activity'|] eqn:Hdoc;
    [|by apply keeps_ret].
  destruct (bool_decide _); [|by apply keeps_ret].
  eapply keeps_bind; [apply keeps_modify; auto|]. intros _ _.
  apply keeps_ret. by rewrite (document_id _ _ _ Hdoc).
Qed.

Lemma keeps_deleteActivity id : keeps Inv e (APIService.deleteActivity id) (λ _, True).
Proof.
  apply keeps_request. destruct id; try by apply keeps_ret.
  unfold Backend.deleteActivity. eapply keeps_bind; [apply keeps_env|].
  intros e' _. eapply keeps_bind; [apply keeps_gets|].
  intros docs _. destruct (Activity.findById e' s docs) as [[activity|]|];
    try by apply keeps_ret.
  eapply keeps_bind; [apply keeps_modify; auto|]. intros; by apply keeps_ret.
Qed.

Lemma keeps_updateActivity id updates :
  keeps Inv e (APIService.updateActivity id updates) (λ _, True).
Proof.
  unfold APIService.updateActivity. eapply keeps_bind; [|intros; by apply keeps_ret].
  apply (keeps_request _ (λ _, True)). destruct id; try by apply keeps_ret.
  unfold Backend.updateActivity. eapply keeps_bind; [apply keeps_env|].
  intros e' _. eapply keeps_bind; [apply keeps_gets|].
  intros docs _. destruct (Activity.findById e' s docs) as [[activity|]|];
    try by apply keeps_ret.
  eapply keeps_bind; [apply keeps_assign_and_save|].
  intros [doc| |] _; by apply keeps_ret.
Qed.

(** The identifier in the answer to a create is never empty, as long as
    the identifiers the store hands out are not. *)
Hypothesis objectId_nonempty : ∀ n, objectId e n ≠ "".

Lemma keeps_createActivity activity :
  keeps Inv e (APIService.createActivity activity)
        (λ response, truthy (response !! "_id") = true).
Proof.
  unfold APIService.createActivity.
  eapply (keeps_bind _ _ (λ doc, doc_id doc ≠ "")).
  - apply keeps_request. unfold Backend.createActivity.
    destruct (_ || _); [by apply keeps_ret|].
    destruct (if truthy _ then _ else _) as [activityData|]; [|by apply keeps_ret].
    eapply keeps_bind; [apply keeps_create|].
    intros [doc| |] Hdoc; apply keeps_ret; try done.
    destruct Hdoc as [[n ->]|Hdoc]; [apply objectId_nonempty|done].
  - intros doc Hdoc. apply keeps_ret. unfold toJSON.
    rewrite lookup_insert_eq. simpl.
    destruct (String.eqb_spec (doc_id doc) ""); done.
Qed.

Lemma keeps_exec {A} (m : M A) (Q : A → Prop) w :
  keeps Inv e m Q → Inv w → Inv (exec m e w).
Proof.
  intros Hm Hw. specialize (Hm w Hw). unfold exec.
  destruct (m e w) as [[a|x] w']; simpl; [by destruct Hm|done].
Qed.

(** The writes to the records. *)
Hypothesis Inv_add : ∀ w (row : Obj),
  Inv w → row !! "syncStatus" = Some (VStr "pending") →
  Inv (set_activitiesNext (S (activitiesNext w))
         (set_activities <[activitiesNext w := row]> w)).
Hypothesis Inv_update : ∀ w id (patch : Obj),
  Inv w → patch !! "syncStatus" = Some (VStr "pending") →
  Inv (set_activities (alter (λ row, patch ∪ row) id) w).
Hypothesis Inv_delete : ∀ w id, Inv w → Inv (set_activities (delete id) w).
Hypothesis Inv_markSynced : ∀ w id v,
  Inv w → truthy (Some v) = true →
  Inv (set_activities
         (alter (λ row, <["syncStatus" := VStr "synced"]> (<["serverId" := v]> row)) id)
         w).

Lemma stamped_pending (o : Obj) t :
  (<["lastModified" := VTime t]> (<["syncStatus" := VStr "pending"]> o) : Obj)
    !! "syncStatus" = Some (VStr "pending").
Proof. rewrite lookup_insert_ne by done. apply lookup_insert_eq. Qed.

Lemma keeps_add activity : keeps Inv e (ActivityDB.add activity) (λ _, True).
Proof.
  unfold ActivityDB.add. eapply keeps_bind; [apply keeps_now|]. intros t _.
  eapply (keeps_bind _ _ (λ _, True)).
  { intros w Hw. simpl. split; [|done]. apply Inv_add; [done|apply stamped_pending]. }
  intros id _. eapply keeps_bind; [apply keeps_now|]. intros t' _.
  eapply keeps_bind; [apply keeps_syncQueue_add|]. intros; by apply keeps_ret.
Qed.

Lemma keeps_update id updates : keeps Inv e (ActivityDB.update id updates) (λ _, True).
Proof.
  unfold ActivityDB.update. eapply keeps_bind; [apply keeps_now|]. intros t _.
  eapply keeps_bind.
  { apply keeps_modify. intros w Hw. apply Inv_update; [done|apply stamped_pending]. }
  intros _ _. eapply keeps_bind; [apply keeps_now|]. intros t' _.
  eapply keeps_bind; [apply keeps_syncQueue_add|]. intros; by apply keeps_ret.
Qed.

Lemma keeps_delete id : keeps Inv e (ActivityDB.delete id) (λ _, True).
Proof.
  unfold ActivityDB.delete. eapply keeps_bind; [apply keeps_modify; auto|].
  intros _ _. eapply keeps_bind; [apply keeps_now|]. intros t' _.
  eapply keeps_bind; [apply keeps_syncQueue_add|]. intros; by apply keeps_ret.
Qed.

Lemma keeps_markSynced id v :
  truthy v = true → keeps Inv e (ActivityDB.markSynced id v) (λ _, True).
Proof.
  intros Hv. destruct v as [v|]; [|discriminate].
  apply keeps_modify. intros w Hw. by apply Inv_markSynced.
Qed.

Lemma keeps_syncCreate item : keeps Inv e (SyncService.syncCreate item) (λ _, True).
Proof.
  unfold SyncService.syncCreate. eapply keeps_bind; [apply keeps_gets|].
  intros [activity|] _; [|apply keeps_throw].
  eapply keeps_bind; [apply keeps_createActivity|].
  intros response Hid. by apply keeps_markSynced.
Qed.

Lemma keeps_syncUpdate item : keeps Inv e (SyncService.syncUpdate item) (λ _, True).
Proof.
  unfold SyncService.syncUpdate. eapply keeps_bind; [apply keeps_gets|].
  intros [activity|] _; [|apply keeps_throw].
  destruct (activity !! "serverId") as [serverId|]; [|apply keeps_throw].
  destruct (truthy (Some serverId)) eqn:Hid; [|apply keeps_throw].
  eapply keeps_bind; [apply keeps_updateActivity|].
  intros _ _. by apply keeps_markSynced.
Qed.

Lemma keeps_syncDelete item : keeps Inv e (SyncService.syncDelete item) (λ _, True).
Proof.
  unfold SyncService.syncDelete. eapply keeps_bind; [apply keeps_gets|].
  intros activity _. destruct (activity ≫= _) as [serverId|]; [|by apply keeps_ret].
  destruct (truthy (Some serverId)); [|by apply keeps_ret].
  apply keeps_deleteActivity.
Qed.

Lemma keeps_processItem item results :
  keeps Inv e (SyncService.processItem item results) (λ _, True).
Proof.
  unfold SyncService.processItem. apply keeps_try_catch.
  - eapply (keeps_bind _ _ (λ _, True)).
    + destruct (operation item.2);
        [apply keeps_syncCreate|apply keeps_syncUpdate|apply keeps_syncDelete].
    + intros _ _. eapply keeps_bind; [apply keeps_remove|].
      intros; by apply keeps_ret.
  - intros error. eapply keeps_bind; [apply keeps_incrementRetry|].
    intros _ _. eapply (keeps_bind _ _ (λ _, True)).
    + destruct (5 <=? _); [apply keeps_remove|by apply keeps_ret].
    + intros; by apply keeps_ret.
Qed.

Lemma keeps_processSyncQueue :
  keeps Inv e SyncService.processSyncQueue (λ _, True).
Proof.
  unfold SyncService.processSyncQueue. eapply keeps_bind; [apply keeps_gets|].
  intros queue _. apply keeps_for_of. intros; apply keeps_processItem.
Qed.

Lemma keeps_pullItem serverActivity results :
  keeps Inv e (SyncService.pullItem serverActivity results) (λ _, True).
Proof.
  unfold SyncService.pullItem. eapply keeps_bind; [apply keeps_gets|].
  intros localActivities _.
  destruct (List.find _ localActivities) as [localActivity|].
  - destruct (dateGt _ _); [|by apply keeps_ret].
    eapply keeps_bind; [apply keeps_update|]. intros; by apply keeps_ret.
  - eapply keeps_bind; [apply keeps_add|]. intros; by apply keeps_ret.
Qed.

Lemma keeps_pullFromServer : keeps Inv e SyncService.pullFromServer (λ _, True).
Proof.
  unfold SyncService.pullFromServer.
  apply keeps_try_catch; [|intros; apply keeps_throw].
  eapply keeps_bind; [apply keeps_gets|]. intros lastSync _.
  eapply keeps_bind; [apply keeps_getActivities|]. intros serverActivities _.
  apply keeps_for_of. intros; apply keeps_pullItem.
Qed.

Lemma keeps_forceSync : keeps Inv e SyncService.forceSync (λ _, True).
Proof.
  unfold SyncService.forceSync, SyncService.isOnline.
  eapply keeps_bind; [apply keeps_gets|]. intros online _.
  destruct (negb online); [apply keeps_throw|].
  apply keeps_try_catch; [|intros; apply keeps_throw].
  eapply keeps_bind; [apply keeps_clear|]. intros _ _.
  eapply keeps_bind; [apply keeps_getActivities|]. intros serverActivities _.
  eapply keeps_bind; [apply keeps_gets|]. intros localActivities _.
  eapply keeps_bind.
  { apply keeps_for_of. intros activity [] _. apply keeps_delete. }
  intros _ _. eapply keeps_bind.
  { apply keeps_for_of. intros serverActivity [] _.
    eapply keeps_bind; [apply keeps_add|]. intros; by apply keeps_ret. }
  intros _ _. eapply keeps_bind; [apply keeps_now|]. intros t _.
  eapply keeps_bind; [apply keeps_modify; auto|]. intros; by apply keeps_ret.
Qed.

Hypothesis Inv_isSyncing : ∀ b w, Inv w → Inv (set_isSyncing b w).

Lemma keeps_sync : keeps Inv e SyncService.sync (λ _, True).
Proof.
  unfold SyncService.sync, SyncService.isOnline.
  eapply keeps_bind; [apply keeps_gets|]. intros busy _.
  destruct busy; [by apply keeps_ret|].
  eapply keeps_bind; [apply keeps_gets|]. intros online _.
  destruct (negb online); [by apply keeps_ret|].
  eapply keeps_bind; [apply keeps_modify; auto|]. intros _ _.
  intros w Hw. unfold try_finally.
  match goal with |- context [try_catch ?m ?h e w] =>
    assert (Hbody : keeps Inv e (try_catch m h) (λ _, True)) end.
  { apply keeps_try_catch; [|intros; by apply keeps_ret].
    eapply (keeps_bind _ _ (λ _, True)).
    { apply keeps_try_catch; [apply keeps_healthCheck|intros; apply keeps_throw]. }
    intros _ _. eapply keeps_bind; [apply keeps_processSyncQueue|]. intros syncResults _.
    eapply keeps_bind; [apply keeps_pullFromServer|]. intros pullResults _.
    eapply keeps_bind; [apply keeps_now|]. intros t _.
    eapply keeps_bind; [apply keeps_modify; auto|]. intros; by apply keeps_ret. }
  specialize (Hbody w Hw).
  destruct (try_catch _ _ e w) as [[r|x] w']; [destruct Hbody; auto|auto].
Qed.

End Keeps.

(** ** The invariant of synced records *)

Lemma synced_has_serverId_activities w w' :
  activities w' = activities w → synced_has_serverId w → synced_has_serverId w'.
Proof. unfold synced_has_serverId. intros ->. auto. Qed.

Lemma synced_has_serverId_insert w k (row : Obj) :
  synced_has_serverId w →
  row !! "syncStatus" = Some (VStr "pending") →
  synced_has_serverId
    (set_activitiesNext (S (activitiesNext w)) (set_activities <[k := row]> w)).
Proof.
  intros Hw Hrow id row' Hid Hsynced. simpl in Hid.
  destruct (decide (k = id)) as [->|Hne].
  - rewrite lookup_insert_eq in Hid. congruence.
  - rewrite lookup_insert_ne in Hid by done. eauto.
Qed.

Lemma synced_has_serverId_update w id (patch : Obj) :
  synced_has_serverId w →
  patch !! "syncStatus" = Some (VStr "pending") →
  synced_has_serverId (set_activities (alter (λ row, patch ∪ row) id) w).
Proof.
  intros Hw Hpatch k row Hk Hsynced. simpl in Hk.
  destruct (decide (id = k)) as [->|Hne].
  - rewrite lookup_alter_eq in Hk.
    destruct (activities w !! k) as [old|]; [|discriminate].
    simpl in Hk. injection Hk as <-.
    rewrite (lookup_union_Some_l _ _ _ _ Hpatch) in Hsynced. discriminate.
  - rewrite lookup_alter_ne in Hk by done. eauto.
Qed.

Lemma synced_has_serverId_delete w id :
  synced_has_serverId w → synced_has_serverId (set_activities (delete id) w).
Proof.
  intros Hw k row Hk Hsynced. simpl in Hk.
  apply lookup_delete_Some in Hk as [_ Hk]. eauto.
Qed.

Lemma synced_has_serverId_markSynced w id v :
  synced_has_serverId w → truthy (Some v) = true →
  synced_has_serverId
    (set_activities
       (alter (λ row, <["syncStatus" := VStr "synced"]> (<["serverId" := v]> row)) id) w).
Proof.
  intros Hw Hv k row Hk Hsynced. simpl in Hk.
  destruct (decide (id = k)) as [->|Hne].
  - rewrite lookup_alter_eq in Hk.
    destruct (activities w !! k) as [old|]; [|discriminate].
    simpl in Hk. injection Hk as <-.
    rewrite lookup_insert_ne, lookup_insert_eq by done. exact Hv.
  - rewrite lookup_alter_ne in Hk by done. eauto.
Qed.

(** Every action keeps the invariant. *)
Lemma act_synced_has_serverId e a w :
  (∀ n, objectId e n ≠ "") →
  synced_has_serverId w → synced_has_serverId (act e a w).
Proof.
  intros He Hw.
  assert (Hsame : ∀ w w', activities w' = activities w →
                          synced_has_serverId w → synced_has_serverId w')
    by (intros; eapply synced_has_serverId_activities; eauto).
  destruct a; cbn [act].
  - eapply keeps_exec; [|exact Hw].
    apply keeps_add; eauto using synced_has_serverId_insert.
  - eapply keeps_exec; [|exact Hw].
    apply keeps_update; eauto using synced_has_serverId_update.
  - eapply keeps_exec; [|exact Hw].
    apply keeps_delete; eauto using synced_has_serverId_delete.
  - destruct (truthy (Some serverId)) eqn:Hid; [|exact Hw].
    eapply keeps_exec; [|exact Hw].
    apply keeps_markSynced; eauto using synced_has_serverId_markSynced.
  - eapply keeps_exec; [|exact Hw]. apply keeps_clear; eauto.
  - eapply keeps_exec; [|exact Hw].
    apply keeps_processSyncQueue;
      eauto using synced_has_serverId_markSynced.
  - eapply keeps_exec; [|exact Hw].
    apply keeps_pullFromServer;
      eauto using synced_has_serverId_insert, synced_has_serverId_update.
  - eapply keeps_exec; [|exact Hw].
    apply keeps_sync;
      eauto using synced_has_serverId_insert, synced_has_serverId_update,
        synced_has_serverId_markSynced.
  - eapply keeps_exec; [|exact Hw].
    apply keeps_forceSync;
      eauto using synced_has_serverId_insert, synced_has_serverId_delete.
  - exact Hw.
  - exact Hw.
Qed.

(** C8. In every world reached from the empty database by the operations of
    the record store and of the sync service, whatever the connectivity and
    whatever other clients did to the backend collection, a record whose
    [syncStatus] is ['synced'] has a truthy, hence non-empty, [serverId];
    the identifiers the backend store hands out are taken to be non-empty. *)
Theorem synced_records_carry_serverId (e : Env) (actions : list Action) :
  (∀ n, objectId e n ≠ "") →
  synced_has_serverId (run_actions e actions empty_db).
Proof.
  intros He. unfold run_actions.
  assert (H0 : synced_has_serverId empty_db).
  { intros id row Hid. simpl in Hid. by rewrite lookup_empty in Hid. }
  revert H0. generalize empty_db. induction actions as [|a l IH]; intros w Hw.
  - exact Hw.
  - simpl. apply IH. by apply act_synced_has_serverId.
Qed.

Lemma synced_records_carry_serverId_witness :
  let w := run_actions served [do_add a_run; do_processSyncQueue] empty_db in
  (∀ n, objectId served n ≠ "")
  ∧ (activities w !! 1 ≫= (.!! "syncStatus")) = Some (VStr "synced")
  ∧ synced_has_serverId w.
Proof.
  intros w.
  assert (Hids : ∀ n, objectId served n ≠ "") by (intros n; simpl; discriminate).
  split; [exact Hids|]. split; [vm_compute; reflexivity|].
  exact (synced_records_carry_serverId served
           [do_add a_run; do_processSyncQueue] Hids).
Defined.

(** ** The sync cycle: results and the guard *)

Lemma try_catch_returns {A} (m : M A) (h : string → M A) e w :
  (∀ x w1, ∃ a w2, h x e w1 = (Ok a, w2)) →
  ∃ a w', try_catch m h e w = (Ok a, w').
Proof.
  intros Hh. unfold try_catch. destruct (m e w) as [[a|x] w']; eauto.
Qed.

Lemma sync_busy e w :
  isSyncing w = true → SyncService.sync e w = (Ok busy_result, w).
Proof. intros H. unfold SyncService.sync, bind, gets. by rewrite H. Qed.

Lemma sync_offline e w :
  isSyncing w = false → onLine w = false →
  SyncService.sync e w = (Ok offline_result, w).
Proof.
  intros H1 H2. unfold SyncService.sync, SyncService.isOnline, bind, gets.
  by rewrite H1, H2.
Qed.

Lemma sync_unreachable e w :
  isSyncing w = false → onLine w = true → net e (requests w) = false →
  SyncService.sync e w =
  (Ok unreachable_result,
   set_isSyncing false (set_requests (S (requests w)) (set_isSyncing true w))).
Proof.
  intros H1 H2 H3.
  unfold SyncService.sync, SyncService.isOnline, bind, gets.
  rewrite H1, H2. cbn [negb].
  unfold try_finally, try_catch, modify, APIService.healthCheck,
    APIService.request, try_catch, bind.
  cbn [requests set_isSyncing]. rewrite H3. reflexivity.
Qed.

Lemma sync_returns e w : ∃ r w', SyncService.sync e w = (Ok r, w').
Proof.
  destruct (isSyncing w) eqn:H1; [rewrite sync_busy by done; eauto|].
  destruct (onLine w) eqn:H2; [|rewrite sync_offline by done; eauto].
  unfold SyncService.sync, SyncService.isOnline, bind, gets.
  rewrite H1, H2. cbn [negb]. unfold modify, try_finally.
  match goal with |- context [try_catch ?m ?h e ?w1] =>
    destruct (try_catch_returns m h e w1) as (r & w' & ->) end; eauto.
Qed.

(** C9. [sync()] always resolves to a result object and never throws; and
    when it stops because a cycle is already running, because the device is
    offline or because the backend did not answer the health probe, the
    result reports the failure and the activities, the sync queue, their key
    generators, the last sync time and the backend collection are what they
    were. *)
Theorem sync_always_resolves (e : Env) (w : World) :
  ∃ r w',
    SyncService.sync e w = (Ok r, w')
    ∧ (isSyncing w = true ∨ onLine w = false ∨ net e (requests w) = false →
       r = (if isSyncing w then busy_result
            else if onLine w then unreachable_result else offline_result)
       ∧ success r = false
       ∧ activities w' = activities w
       ∧ activitiesNext w' = activitiesNext w
       ∧ syncQueue w' = syncQueue w
       ∧ syncQueueNext w' = syncQueueNext w
       ∧ lastSync w' = lastSync w
       ∧ server w' = server w).
Proof.
  destruct (isSyncing w) eqn:H1.
  { rewrite sync_busy by done. eexists _, _. split; [reflexivity|]. by intros _. }
  destruct (onLine w) eqn:H2.
  2:{ rewrite sync_offline by done. eexists _, _. split; [reflexivity|]. by intros _. }
  destruct (net e (requests w)) eqn:H3.
  - destruct (sync_returns e w) as (r & w' & Hr). exists r, w'.
    split; [exact Hr|]. intros [H|[H|H]]; discriminate.
  - rewrite sync_unreachable by done. eexists _, _. split; [reflexivity|]. by intros _.
Qed.

Lemma sync_always_resolves_witness :
  let w := exec (ActivityDB.add a_run) refused empty_db in
  net refused (requests w) = false
  ∧ ∃ r w', SyncService.sync refused w = (Ok r, w')
            ∧ r = unreachable_result
            ∧ activities w' = activities w
            ∧ syncQueue w' = syncQueue w.
Proof.
  intros w. split; [reflexivity|].
  destruct (sync_always_resolves refused w) as (r & w' & Hr & Habort).
  destruct Habort as (Hres & _ & Hact & _ & Hqueue & _); [right; right; reflexivity|].
  exists r, w'. split_and!; assumption.
Defined.





(** ** The push phase *)

(** After [ActivityDB.delete] the record is gone, and a delete entry whose
    record is gone sends nothing. *)
Lemma delete_removes_record e w id :
  activities (exec (ActivityDB.delete id) e w) !! id = None.
Proof. unfold exec. rewrite delete_spec. cbn. apply lookup_delete_eq. Qed.

Lemma syncDelete_without_record e w item :
  activities w !! activityId item.2 = None →
  SyncService.syncDelete item e w = (Ok tt, w).
Proof.
  intros Hnone. unfold SyncService.syncDelete, bind, ActivityDB.getById, gets.
  by rewrite Hnone.
Qed.

Lemma syncUpdate_without_record e w item :
  activities w !! activityId item.2 = None →
  SyncService.syncUpdate item e w = (Throw "Activity not found locally", w).
Proof.
  intros Hnone. unfold SyncService.syncUpdate, bind, ActivityDB.getById, gets.
  by rewrite Hnone.
Qed.

(** A failed entry: the stored retry count goes up by one, and the entry is
    removed when the count read before the cycle was already 5 or more. *)
Lemma processItem_failure e w item results x w1 q :
  (match operation item.2 with
   | op_create => SyncService.syncCreate item
   | op_update => SyncService.syncUpdate item
   | op_delete => SyncService.syncDelete item
   end) e w = (Throw x, w1) →
  syncQueue w1 !! item.1 = Some q →
  ∃ w2,
    SyncService.processItem item results e w
    = (Ok {| push_success := push_success results;
             push_failed := push_failed results + 1;
             push_errors := push_errors results ++ [(item.1, x)] |}, w2)
    ∧ syncQueue w2 !! item.1
      = if 5 <=? retryCount item.2 then None
        else Some {| operation := operation q; activityId := activityId q;
                     data := data q; timestamp := timestamp q;
                     retryCount := retryCount q + 1;
                     lastAttempt := Some (clock e (ticks w1)) |}.
Proof.
  intros Hrun Hq.
  unfold SyncService.processItem, try_catch, bind. rewrite Hrun.
  unfold SyncQueueDB.incrementRetry, bind, gets. rewrite Hq.
  unfold now, modify. destruct (5 <=? retryCount item.2).
  - eexists. split; [reflexivity|]. cbn. apply lookup_delete_eq.
  - eexists. split; [reflexivity|]. cbn. by rewrite lookup_alter_eq, Hq.
Qed.

(** C1 fails on a record that was edited and then deleted.  The record was
    synced and referenced [srv0]; [ActivityDB.delete] removed the row before
    queueing the delete, so in the push the update finds no record and
    throws, the delete finds no [serverId] and sends nothing: no request
    leaves the device, the document stays on the backend and the update
    stays in the queue. *)
Theorem push_after_update_then_delete :
  let w := edited_then_deleted in
  let w' := exec SyncService.processSyncQueue served w in
  (activities pushed_db !! 1 ≫= (.!! "serverId")) = Some (VStr "srv0")
  ∧ doc_id <$> server w = ["srv0"]
  ∧ ((λ q, (operation q, activityId q)) <$> syncQueue w)
    = {[2 := (op_update, 1); 3 := (op_delete, 1)]}
  ∧ (SyncService.processSyncQueue served w).1
    = Ok {| push_success := 1; push_failed := 1;
            push_errors := [(2, "Activity not found locally")] |}
  ∧ requests w' = requests w
  ∧ doc_id <$> server w' = ["srv0"]
  ∧ ((λ q, (operation q, retryCount q)) <$> syncQueue w') = {[2 := (op_update, 1)]}.
Proof. split_and!; vm_compute; reflexivity. Qed.

(** C5 fails by one cycle.  The create queued for a new record is refused
    in every cycle; after the fifth failure the entry is still queued, with
    a retry count of 5, and the sixth cycle attempts it again and only then
    removes it. *)
Theorem entry_dropped_on_sixth_failure :
  let w := exec (ActivityDB.add a_run) create_refused empty_db in
  let failed_once (r : Outcome SyncResult) :=
    match r with
    | Ok {| results := Some (push, _) |} =>
        bool_decide (push_failed push = 1 ∧ push_success push = 0)
    | _ => false
    end in
  (retryCount <$> syncQueue w) = {[1 := 0]}
  ∧ (∀ n, n < 6 → failed_once (SyncService.sync create_refused (cycles create_refused n w)).1 = true)
  ∧ (retryCount <$> syncQueue (cycles create_refused 4 w)) = {[1 := 4]}
  ∧ (retryCount <$> syncQueue (cycles create_refused 5 w)) = {[1 := 5]}
  ∧ syncQueue (cycles create_refused 6 w) = ∅.
Proof.
  intros w failed_once. split; [vm_compute; reflexivity|]. split.
  - intros n Hn.
    destruct n as [|[|[|[|[|[|n]]]]]]; [vm_compute; reflexivity..|lia].
  - split_and!; vm_compute; reflexivity.
Qed.

(** ** The pull phase and the forced resynchronisation *)

(** C2 fails on a fresh device.  The backend holds one document that no
    local record references; the pull hands it to [ActivityDB.add] with
    [syncStatus: 'synced'], and [add] stores it as ['pending'] and queues a
    ['create'] for it.  The next push sends that create; the backend refuses
    it because the body carries the [_id] of the existing document, and the
    entry stays queued. *)
Theorem pulled_record_is_pending_and_queued :
  let w := fresh_device in
  let w' := exec SyncService.pullFromServer served w in
  let w'' := exec SyncService.processSyncQueue served w' in
  activities w = ∅
  ∧ syncQueue w = ∅
  ∧ doc_id <$> server w = ["srv9"]
  ∧ (SyncService.pullFromServer served w).1
    = Ok {| added := 1; updated := 0; conflicts := 0 |}
  ∧ dom (activities w') = {[1]}
  ∧ (activities w' !! 1 ≫= (.!! "serverId")) = Some (VStr "srv9")
  ∧ (activities w' !! 1 ≫= (.!! "syncStatus")) = Some (VStr "pending")
  ∧ ((λ q, (operation q, activityId q)) <$> syncQueue w') = {[1 := (op_create, 1)]}
  ∧ (SyncService.processSyncQueue served w').1
    = Ok {| push_success := 0; push_failed := 1;
            push_errors := [(1, "Request failed with status code 500")] |}
  ∧ doc_id <$> server w'' = ["srv9"]
  ∧ ((λ q, (operation q, retryCount q)) <$> syncQueue w'') = {[1 := (op_create, 1)]}.
Proof. split_and!; vm_compute; reflexivity. Qed.

(** C3 fails in its last part.  The local record is ['pending'] and was
    modified at 1003; the document it references was modified at 1006.  The
    pull counts one conflict and writes the content of the document over the
    record, through [ActivityDB.update]: the record is left ['pending'], its
    [lastModified] is the time of the pull, and one more ['update'] is
    queued. *)
Theorem conflict_leaves_record_pending :
  let w := edited_on_both_sides in
  let w' := exec SyncService.pullFromServer served w in
  (activities w !! 1 ≫= (.!! "serverId")) = Some (VStr "srv0")
  ∧ (activities w !! 1 ≫= (.!! "syncStatus")) = Some (VStr "pending")
  ∧ (activities w !! 1 ≫= (.!! "lastModified")) = Some (VTime 1003)
  ∧ (activities w !! 1 ≫= (.!! "notes")) = Some (VStr "mine")
  ∧ (λ d, (doc_id d, doc_lastModified d, doc_rest d !! "notes")) <$> server w
    = [("srv0", 1006%Z, Some (VStr "theirs"))]
  ∧ (SyncService.pullFromServer served w).1
    = Ok {| added := 0; updated := 1; conflicts := 1 |}
  ∧ dom (activities w') = {[1]}
  ∧ (activities w' !! 1 ≫= (.!! "notes")) = Some (VStr "theirs")
  ∧ (activities w' !! 1 ≫= (.!! "serverId")) = Some (VStr "srv0")
  ∧ (activities w' !! 1 ≫= (.!! "syncStatus")) = Some (VStr "pending")
  ∧ (activities w' !! 1 ≫= (.!! "lastModified")) = Some (VTime 1007)
  ∧ ((λ q, (operation q, activityId q)) <$> syncQueue w)
    = {[2 := (op_update, 1)]}
  ∧ ((λ q, (operation q, activityId q)) <$> syncQueue w')
    = {[2 := (op_update, 1); 3 := (op_update, 1)]}.
Proof. split_and!; vm_compute; reflexivity. Qed.

(** C4 fails in two of its three parts.  The device holds one synced record
    and the backend the document it references.  [forceSync()] succeeds and
    leaves exactly one record, referencing that document; but the record is
    ['pending'], and the queue, emptied at the start, holds the ['delete']
    that [ActivityDB.delete] queued for the old record and the ['create']
    that [ActivityDB.add] queued for the new one. *)
Theorem forceSync_leaves_pending_records_and_a_queue :
  let w := pushed_db in
  let w' := exec SyncService.forceSync served w in
  (activities w !! 1 ≫= (.!! "syncStatus")) = Some (VStr "synced")
  ∧ syncQueue w = ∅
  ∧ doc_id <$> server w = ["srv0"]
  ∧ (SyncService.forceSync served w).1 = Ok 1
  ∧ dom (activities w') = {[2]}
  ∧ (activities w' !! 2 ≫= (.!! "serverId")) = Some (VStr "srv0")
  ∧ (activities w' !! 2 ≫= (.!! "syncStatus")) = Some (VStr "pending")
  ∧ ((λ q, (operation q, activityId q)) <$> syncQueue w')
    = {[2 := (op_delete, 1); 3 := (op_create, 2)]}.
Proof. split_and!; vm_compute; reflexivity. Qed.

(** ** What the pull fetches *)


#[local] Instance newest_first_total :
  Total (λ a b : ServerDoc, Is_true (doc_startTime b <=? doc_startTime a)%Z).
Proof.
  intros a b.
  destruct (Z.leb_spec (doc_startTime b) (doc_startTime a));
    destruct (Z.leb_spec (doc_startTime a) (doc_startTime b)); simpl; auto; lia.
Qed.

#[local] Instance newest_first_trans :
  Transitive (λ a b : ServerDoc, Is_true (doc_startTime b <=? doc_startTime a)%Z).
Proof.
  intros a b c Hab Hbc.
  apply Is_true_true, Z.leb_le in Hab. apply Is_true_true, Z.leb_le in Hbc.
  apply Is_true_true, Z.leb_le. lia.
Qed.






(** ** What the pull reconciles *)









(** * Further properties of the engine *)

#[local] Set Warnings "-clear-no-such-hyp".

(** ** Writes that leave a part of the world alone *)

Section Frame.
Context (Inv : World → Prop) (e : Env).
Hypothesis Inv_ticks : ∀ w, Inv w → Inv (set_ticks (S (ticks w)) w).
Hypothesis Inv_requests : ∀ n w, Inv w → Inv (set_requests n w).
Hypothesis Inv_objectIds : ∀ n w, Inv w → Inv (set_objectIds n w).
Hypothesis Inv_server : ∀ f w, Inv w → Inv (set_server f w).
Hypothesis Inv_activities : ∀ f w, Inv w → Inv (set_activities f w).

Lemma frame_createActivity activity :
  keeps Inv e (APIService.createActivity activity) (λ _, True).
Proof.
  unfold APIService.createActivity.
  eapply (keeps_bind _ _ _ _ (λ _, True)); [|intros; by apply keeps_ret].
  apply keeps_request; [done|]. unfold Backend.createActivity.
  destruct (_ || _); [by apply keeps_ret|].
  destruct (if truthy _ then _ else _) as [activityData|]; [|by apply keeps_ret].
  eapply keeps_bind; [by apply keeps_create|].
  intros [doc| |] _; by apply keeps_ret.
Qed.

Lemma frame_markSynced id v : keeps Inv e (ActivityDB.markSynced id v) (λ _, True).
Proof. apply keeps_modify. auto. Qed.

(** The three operations of the push. *)
Lemma frame_dispatch item :
  keeps Inv e
    (match operation item.2 with
     | op_create => SyncService.syncCreate item
     | op_update => SyncService.syncUpdate item
     | op_delete => SyncService.syncDelete item
     end) (λ _, True).
Proof.
  destruct (operation item.2).
  - unfold SyncService.syncCreate. eapply keeps_bind; [apply keeps_gets|].
    intros [activity|] _; [|apply keeps_throw].
    eapply keeps_bind; [apply frame_createActivity|].
    intros response _. apply frame_markSynced.
  - unfold SyncService.syncUpdate. eapply keeps_bind; [apply keeps_gets|].
    intros [activity|] _; [|apply keeps_throw].
    destruct (activity !! "serverId") as [serverId|]; [|apply keeps_throw].
    destruct (truthy (Some serverId)); [|apply keeps_throw].
    eapply keeps_bind; [by apply keeps_updateActivity|].
    intros _ _. apply frame_markSynced.
  - by apply keeps_syncDelete.
Qed.

Hypothesis Inv_syncQueue : ∀ f w, Inv w → Inv (set_syncQueue f w).

Lemma frame_processSyncQueue :
  keeps Inv e SyncService.processSyncQueue (λ _, True).
Proof.
  unfold SyncService.processSyncQueue. eapply keeps_bind; [apply keeps_gets|].
  intros queue _. apply keeps_for_of. intros item results _.
  unfold SyncService.processItem. apply keeps_try_catch.
  - eapply (keeps_bind _ _ _ _ (λ _, True)); [apply frame_dispatch|].
    intros _ _. eapply keeps_bind; [by apply keeps_remove|].
    intros; by apply keeps_ret.
  - intros error. eapply keeps_bind; [by apply keeps_incrementRetry|].
    intros _ _. eapply (keeps_bind _ _ _ _ (λ _, True)).
    + destruct (5 <=? _); [by apply keeps_remove|by apply keeps_ret].
    + intros; by apply keeps_ret.
Qed.

Hypothesis Inv_syncQueueNext :
  ∀ w, Inv w → Inv (set_syncQueueNext (S (syncQueueNext w)) w).
Hypothesis Inv_activitiesNext :
  ∀ w, Inv w → Inv (set_activitiesNext (S (activitiesNext w)) w).

Lemma frame_pullFromServer : keeps Inv e SyncService.pullFromServer (λ _, True).
Proof.
  apply keeps_pullFromServer; auto.
  intros w row Hw _. apply (Inv_activitiesNext (set_activities _ w)). auto.
Qed.

Hypothesis Inv_lastSync : ∀ v w, Inv w → Inv (set_lastSync v w).
Hypothesis Inv_isSyncing : ∀ b w, Inv w → Inv (set_isSyncing b w).

Lemma frame_sync : keeps Inv e SyncService.sync (λ _, True).
Proof.
  unfold SyncService.sync, SyncService.isOnline.
  eapply keeps_bind; [apply keeps_gets|]. intros busy _.
  destruct busy; [by apply keeps_ret|].
  eapply keeps_bind; [apply keeps_gets|]. intros online _.
  destruct (negb online); [by apply keeps_ret|].
  eapply keeps_bind; [apply keeps_modify; auto|]. intros _ _.
  intros w Hw. unfold try_finally.
  match goal with |- context [try_catch ?m ?h e w] =>
    assert (Hbody : keeps Inv e (try_catch m h) (λ _, True)) end.
  { apply keeps_try_catch; [|intros; by apply keeps_ret].
    eapply (keeps_bind _ _ _ _ (λ _, True)).
    { apply keeps_try_catch; [by apply keeps_healthCheck|intros; apply keeps_throw]. }
    intros _ _. eapply keeps_bind; [by apply frame_processSyncQueue|].
    intros syncResults _.
    eapply keeps_bind; [by apply frame_pullFromServer|]. intros pullResults _.
    eapply keeps_bind; [by apply keeps_now|]. intros t _.
    eapply keeps_bind; [apply keeps_modify; auto|]. intros; by apply keeps_ret. }
  specialize (Hbody w Hw).
  destruct (try_catch _ _ e w) as [[r|x] w']; [destruct Hbody; auto|auto].
Qed.

End Frame.

(** What a computation leaves when run from a world where the invariant
    holds. *)
Lemma keeps_run {A} (Inv : World → Prop) e (m : M A) (Q : A → Prop) w r w' :
  keeps Inv e m Q → Inv w → m e w = (r, w') → Inv w'.
Proof.
  intros Hm Hw Hrun. specialize (Hm w Hw). rewrite Hrun in Hm.
  destruct r; [by destruct Hm|done].
Qed.

(** ** The push phase, entry by entry *)

Lemma dispatch_leaves_queue e w item r w1 :
  (match operation item.2 with
   | op_create => SyncService.syncCreate item
   | op_update => SyncService.syncUpdate item
   | op_delete => SyncService.syncDelete item
   end) e w = (r, w1) →
  syncQueue w1 = syncQueue w.
Proof.
  intros Hrun.
  eapply (keeps_run (λ w', syncQueue w' = syncQueue w)); [|reflexivity|exact Hrun].
  apply frame_dispatch; auto.
Qed.

(** One entry: the loop body returns, the queue does not grow, and either
    the entry is counted as a success and is gone, or it is counted as a
    failure and reported. *)
Lemma processItem_step e w item r :
  ∃ r1 w1,
    SyncService.processItem item r e w = (Ok r1, w1)
    ∧ dom (syncQueue w1) ⊆ dom (syncQueue w)
    ∧ ((r1 = {| push_success := push_success r + 1;
                push_failed := push_failed r;
                push_errors := push_errors r |}
        ∧ item.1 ∉ dom (syncQueue w1))
       ∨ (∃ x, r1 = {| push_success := push_success r;
                       push_failed := push_failed r + 1;
                       push_errors := push_errors r ++ [(item.1, x)] |})).
Proof.
  unfold SyncService.processItem, try_catch, bind.
  destruct (match operation item.2 with
            | op_create => SyncService.syncCreate item
            | op_update => SyncService.syncUpdate item
            | op_delete => SyncService.syncDelete item
            end e w) as [[[]|x] w1] eqn:Hrun;
    apply dispatch_leaves_queue in Hrun.
  - eexists _, _. split; [reflexivity|]. cbn. rewrite Hrun, dom_delete_L.
    split; [set_solver|]. left. split; [done|set_solver].
  - unfold SyncQueueDB.incrementRetry, bind, gets.
    destruct (syncQueue w1 !! item.1) as [q|] eqn:Hq;
      destruct (5 <=? retryCount item.2);
      (eexists _, _; split; [reflexivity|]; split; [|right; by eexists]); cbn;
      rewrite ?dom_delete_L, ?dom_alter_L, Hrun; set_solver.
Qed.

Lemma push_loop e l : ∀ r w,
  ∃ r' w' new,
    for_of l SyncService.processItem r e w = (Ok r', w')
    ∧ push_success r' + push_failed r' = push_success r + push_failed r + length l
    ∧ push_errors r' = push_errors r ++ new
    ∧ push_failed r' = push_failed r + length new
    ∧ new.*1 ⊆ l.*1
    ∧ dom (syncQueue w') ⊆ dom (syncQueue w)
    ∧ (∀ k, k ∈ dom (syncQueue w') → k ∈ l.*1 → k ∈ new.*1).
Proof.
  induction l as [|item l IH]; intros r w.
  - exists r, w, []. cbn. rewrite app_nil_r.
    split_and!; try done; try lia.
  - destruct (processItem_step e w item r) as (r1 & w1 & Hrun1 & Hdom1 & Hcase).
    destruct (IH r1 w1)
      as (r2 & w2 & new2 & Hrun2 & Hsum & Herr & Hfailed & Hkeys & Hdom2 & Hleft).
    cbn [for_of]. unfold bind. rewrite Hrun1, fmap_cons.
    destruct Hcase as [[-> Hgone]|[x ->]]; cbn in *.
    + exists r2, w2, new2. split_and!; try done; try lia; [set_solver..|].
      intros k Hk [->|Hin]%elem_of_cons; [|by apply Hleft].
      exfalso. apply Hgone, Hdom2, Hk.
    + exists r2, w2, ((item.1, x) :: new2). rewrite Herr, <- app_assoc.
      split_and!; try done; cbn; try lia; [set_solver..|].
      intros k Hk [->|Hin]%elem_of_cons; [by left|]. right. by apply Hleft.
Qed.

Lemma filter_all {A} (P : A → Prop) `{∀ x, Decision (P x)} (l : list A) :
  (∀ x, P x) → filter P l = l.
Proof.
  intros HP. induction l as [|x l IH]; [done|].
  rewrite filter_cons_True by done. by rewrite IH.
Qed.

Lemma queue_order_Permutation (m : gmap nat QueueItem) :
  orderBy (λ q, Some (VTime (timestamp q))) m ≡ₚ map_to_list m.
Proof.
  unfold orderBy. rewrite merge_sort_Permutation. by rewrite filter_all.
Qed.

(** X2. The push never throws and visits every queued entry once: the two
    counts add up to the size of the queue, one error is reported per
    failure, the queue does not grow, and whatever is still queued afterwards
    failed in this very cycle. *)
Theorem push_visits_every_entry (e : Env) (w : World) :
  ∃ r w',
    SyncService.processSyncQueue e w = (Ok r, w')
    ∧ push_success r + push_failed r = size (syncQueue w)
    ∧ length (push_errors r) = push_failed r
    ∧ (∀ k, k ∈ (push_errors r).*1 → k ∈ dom (syncQueue w))
    ∧ dom (syncQueue w') ⊆ dom (syncQueue w)
    ∧ (∀ k, k ∈ dom (syncQueue w') → k ∈ (push_errors r).*1).
Proof.
  unfold SyncService.processSyncQueue, bind, SyncQueueDB.getAll, gets.
  set (queue := orderBy _ (syncQueue w)).
  assert (Hperm : queue ≡ₚ map_to_list (syncQueue w))
    by apply queue_order_Permutation.
  assert (Hkeys : ∀ k, k ∈ queue.*1 ↔ k ∈ dom (syncQueue w)).
  { intros k. rewrite Hperm, elem_of_dom. split.
    - intros ([k' q] & -> & Hin)%list_elem_of_fmap.
      apply elem_of_map_to_list in Hin. by eexists.
    - intros [q Hq]. apply list_elem_of_fmap. exists (k, q).
      split; [done|]. by apply elem_of_map_to_list. }
  destruct (push_loop e queue {| push_success := 0; push_failed := 0; push_errors := [] |} w)
    as (r & w' & new & Hrun & Hsum & Herr & Hfailed & Hnew & Hdom & Hleft).
  exists r, w'. cbn in *. subst new. split_and!.
  - exact Hrun.
  - rewrite Hsum, Hperm. apply length_map_to_list.
  - lia.
  - intros k Hk. apply Hkeys, Hnew, Hk.
  - exact Hdom.
  - intros k Hk. apply Hleft; [done|]. apply Hkeys, Hdom, Hk.
Qed.

#[local] Instance queue_index_total :
  Total (λ x y : nat * QueueItem,
           Is_true (index_leb (λ q, Some (VTime (timestamp q))) x y)).
Proof.
  intros x y. unfold index_leb. cbn.
  destruct (Z.compare_spec (timestamp x.2) (timestamp y.2));
    destruct (Z.compare_spec (timestamp y.2) (timestamp x.2));
    try lia; cbn; auto.
  destruct (Nat.leb_spec x.1 y.1); destruct (Nat.leb_spec y.1 x.1);
    cbn; auto; lia.
Qed.

Lemma queue_index_before x y :
  Is_true (index_leb (λ q, Some (VTime (timestamp q))) x y) ↔ queue_before x y.
Proof.
  unfold index_leb, queue_before. cbn.
  destruct (Z.compare_spec (timestamp x.2) (timestamp y.2)); cbn.
  - rewrite Is_true_true, Nat.leb_le. intuition lia.
  - intuition lia.
  - intuition lia.
Qed.

#[local] Instance queue_index_trans :
  Transitive (λ x y : nat * QueueItem,
                Is_true (index_leb (λ q, Some (VTime (timestamp q))) x y)).
Proof.
  intros x y z Hxy Hyz. apply queue_index_before in Hxy, Hyz.
  apply queue_index_before. unfold queue_before in *. intuition lia.
Qed.

Lemma StronglySorted_weaken {A} (R S : relation A) l :
  (∀ x y, R x y → S x y) → StronglySorted R l → StronglySorted S l.
Proof.
  intros HRS. induction 1 as [|x l Hl IH Hx]; constructor; [done|].
  eapply Forall_impl; [exact Hx|]. intros y. apply HRS.
Qed.

(** X1. [SyncQueueDB.getAll()] lists every queued entry exactly once, in
    the order of the timestamps, entries of one timestamp in the order of
    their keys; it changes nothing. *)
Theorem queue_listed_in_timestamp_order (e : Env) (w : World) :
  ∃ queue,
    SyncQueueDB.getAll e w = (Ok queue, w)
    ∧ queue ≡ₚ map_to_list (syncQueue w)
    ∧ StronglySorted queue_before queue.
Proof.
  eexists. split; [reflexivity|]. split; [apply queue_order_Permutation|].
  unfold orderBy.
  eapply StronglySorted_weaken;
    [|apply StronglySorted_merge_sort; apply _].
  intros x y. apply queue_index_before.
Qed.

(** X3. What the push does to one stored entry, by the outcome of its
    operation.  The operation itself leaves the queue as it was.  When the
    operation returns, the entry is counted as a success and removed, and
    nothing else is written.  When the operation throws, the entry is
    counted as a failure and its error is reported under its key; the clock
    is read once; and the entry is removed when the retry count of the copy
    read at the start of the cycle was already 5 or more, and is otherwise
    kept with the stored retry count one higher and the attempt dated with
    that clock reading.  Every other entry is left as it was in both
    cases. *)
Theorem push_retry_rule (e : Env) (w : World) (item : nat * QueueItem)
    (r : PushResults) (q : QueueItem) :
  syncQueue w !! item.1 = Some q →
  match dispatch item e w with
  | (Ok _, w0) =>
      syncQueue w0 = syncQueue w
      ∧ SyncService.processItem item r e w
        = (Ok {| push_success := push_success r + 1;
                 push_failed := push_failed r;
                 push_errors := push_errors r |},
           set_syncQueue (delete item.1) w0)
  | (Throw x, w0) =>
      syncQueue w0 = syncQueue w
      ∧ SyncService.processItem item r e w
        = (Ok {| push_success := push_success r;
                 push_failed := push_failed r + 1;
                 push_errors := push_errors r ++ [(item.1, x)] |},
           set_syncQueue
             (λ queue,
                if 5 <=? retryCount item.2 then delete item.1 queue
                else <[item.1 := {| operation := operation q;
                                    activityId := activityId q;
                                    data := data q; timestamp := timestamp q;
                                    retryCount := retryCount q + 1;
                                    lastAttempt := Some (clock e (ticks w0)) |}]>
                       queue)
             (set_ticks (S (ticks w0)) w0))
  end.
Proof.
  intros Hq. unfold SyncService.processItem, try_catch, bind. fold (dispatch item).
  destruct (dispatch item e w) as [[[]|x] w0] eqn:Hrun;
    apply dispatch_leaves_queue in Hrun; (split; [exact Hrun|]).
  - reflexivity.
  - unfold SyncQueueDB.incrementRetry, bind, gets. rewrite Hrun, Hq.
    unfold now, modify, SyncQueueDB.remove, modify, ret.
    destruct (5 <=? retryCount item.2); destruct w0; cbn in *; subst;
      unfold set_syncQueue, set_ticks; cbn; do 2 f_equal.
    + rewrite delete_alter. by destruct (decide _).
    + apply map_eq. intros k. destruct (decide (k = item.1)) as [->|Hk].
      * by rewrite lookup_alter_eq, lookup_insert_eq, Hq.
      * by rewrite lookup_alter_ne, lookup_insert_ne.
Qed.

Lemma push_retry_rule_witness :
  let w := edited_then_deleted in
  let q := {| operation := op_update; activityId := 1; data := Some (note "mine");
              timestamp := 1004; retryCount := 0; lastAttempt := None |} in
  let r := {| push_success := 0; push_failed := 0; push_errors := [] |} in
  syncQueue w !! 2 = Some q
  ∧ (dispatch (2, q) served w).1 = Throw "Activity not found locally"
  ∧ ∃ w1,
      SyncService.processItem (2, q) r served w
      = (Ok {| push_success := 0; push_failed := 1;
               push_errors := [(2, "Activity not found locally")] |}, w1)
      ∧ (retryCount <$> syncQueue w1 !! 2) = Some 1.
Proof.
  intros w q r.
  assert (Hq : syncQueue w !! 2 = Some q) by (vm_compute; reflexivity).
  assert (Hthrow : dispatch (2, q) served w = (Throw "Activity not found locally", w))
    by (vm_compute; reflexivity).
  pose proof (push_retry_rule served w (2, q) r q Hq) as Hrule.
  split; [exact Hq|]. split; [by rewrite Hthrow|].
  destruct (dispatch (2, q) served w) as [[[]|x] w0]; [discriminate Hthrow|].
  injection Hthrow as -> _. destruct Hrule as [_ Hrule].
  eexists. split; [exact Hrule|].
  subst q. cbn. by rewrite lookup_insert_eq.
Defined.

(** ** The Activity model and the activity controller *)




































(** ** The cycle and the last sync time *)


(** ** The forced resynchronisation that fails *)

(** X9. [forceSync()] offline throws and changes nothing.  Online, when the
    download is not served, it throws the error of the request after it has
    already emptied the sync queue: the records, the last sync time and the
    backend are what they were, and the queued changes are gone. *)
Theorem forceSync_failure_modes (e : Env) (w : World) :
  onLine w = false ∨ net e (requests w) = false →
  ∃ x w',
    SyncService.forceSync e w = (Throw x, w')
    ∧ x = (if onLine w then "Network Error" else "Cannot force sync while offline")
    ∧ activities w' = activities w
    ∧ activitiesNext w' = activitiesNext w
    ∧ lastSync w' = lastSync w
    ∧ server w' = server w
    ∧ syncQueue w' = (if onLine w then ∅ else syncQueue w)
    ∧ (onLine w = false → w' = w).
Proof.
  intros Hfail.
  unfold SyncService.forceSync, SyncService.isOnline, bind, gets.
  destruct (onLine w) eqn:Honline; cbn [negb].
  - destruct Hfail as [|Hnet]; [done|].
    unfold try_catch, SyncQueueDB.clear, modify, APIService.getActivities,
      APIService.request, bind.
    cbn [requests set_syncQueue fst snd]. rewrite Hnet.
    eexists _, _. split; [reflexivity|]. by cbn.
  - eexists _, _. split; [reflexivity|]. by cbn.
Qed.

Lemma forceSync_failure_modes_witness :
  let w := exec (ActivityDB.add a_run) refused empty_db in
  net refused (requests w) = false
  ∧ ∃ x w',
      SyncService.forceSync refused w = (Throw x, w')
      ∧ activities w' = activities w
      ∧ syncQueue w' = (if onLine w then ∅ else syncQueue w).
Proof.
  intros w. split; [reflexivity|].
  destruct (forceSync_failure_modes refused w (or_intror eq_refl))
    as (x & w' & Hrun & _ & Hact & _ & _ & _ & Hqueue & _).
  exists x, w'. split_and!; assumption.
Defined.

(** ** The pull phase, document by document *)


Lemma fresh_after_insert {A} n (x : A) (m : gmap nat A) :
  map_Forall (λ k _, k < n) m → map_Forall (λ k _, k < S n) (<[n := x]> m).
Proof.
  intros Hm. apply map_Forall_insert_2; [lia|].
  eapply map_Forall_impl; [exact Hm|]. intros; cbn in *; lia.
Qed.







(** ** Listing *)






Lemma orderBy_elem_iff {A} (key : A → option Value) (rows : gmap nat A) k row :
  (k, row) ∈ orderBy key rows ↔ rows !! k = Some row ∧ indexable (key row) = true.
Proof.
  unfold orderBy. rewrite merge_sort_Permutation, list_elem_of_filter,
    elem_of_map_to_list. cbn. rewrite Is_true_true. tauto.
Qed.

Lemma NoDup_keys_filter {A} (P : nat * A → Prop) `{∀ x, Decision (P x)}
    (l : list (nat * A)) :
  NoDup l.*1 → NoDup (filter P l).*1.
Proof.
  intros Hl. eapply sublist_NoDup; [exact Hl|].
  apply fmap_sublist, sublist_filter.
Qed.

Lemma orderBy_NoDup {A} (key : A → option Value) (rows : gmap nat A) :
  NoDup (orderBy key rows).*1.
Proof.
  unfold orderBy. rewrite merge_sort_Permutation.
  apply NoDup_keys_filter, NoDup_fst_map_to_list.
Qed.

(** X12. [ActivityDB.getAll(filters)] changes nothing and lists each record
    at most once.  A record is listed exactly when it is stored, its
    [startTime] can be a key of the index the list is read from, and it
    passes each filter that is given: the same [type], a start not before
    [startDate], a start not after [endDate].  A record without a usable
    [startTime] is never listed. *)
Theorem getAll_lists (e : Env) (w : World) (filters : Obj) :
  ∃ l,
    ActivityDB.getAll filters e w = (Ok l, w)
    ∧ NoDup l.*1
    ∧ ∀ k row,
        (k, row) ∈ l ↔
        activities w !! k = Some row
        ∧ indexable (row !! "startTime") = true
        ∧ (truthy (filters !! "type") = true → row !! "type" = filters !! "type")
        ∧ (truthy (filters !! "startDate") = true →
           dateGe (dateOf (row !! "startTime")) (dateOf (filters !! "startDate")) = true)
        ∧ (truthy (filters !! "endDate") = true →
           dateLe (dateOf (row !! "startTime")) (dateOf (filters !! "endDate")) = true).
Proof.
  unfold ActivityDB.getAll, gets. eexists. split; [reflexivity|].
  set (all := reverse (orderBy (λ a : Obj, a !! "startTime") (activities w))).
  assert (Hall : ∀ k row, (k, row) ∈ all ↔
            activities w !! k = Some row ∧ indexable (row !! "startTime") = true).
  { intros k row. subst all. by rewrite elem_of_reverse, orderBy_elem_iff. }
  assert (Hnodup : NoDup all.*1).
  { subst all. rewrite reverse_Permutation. apply orderBy_NoDup. }
  clearbody all. split.
  - destruct (truthy (filters !! "type")), (truthy (filters !! "startDate")),
      (truthy (filters !! "endDate"));
      repeat apply NoDup_keys_filter; done.
  - intros k row.
    destruct (truthy (filters !! "type")), (truthy (filters !! "startDate")),
      (truthy (filters !! "endDate"));
      rewrite ?list_elem_of_filter, Hall; cbn [fst snd]; rewrite ?Is_true_true;
      intuition congruence.
Qed.

(** X13. [ActivityDB.getPendingSync()] changes nothing and lists, each once,
    exactly the stored records whose [syncStatus] is ['pending']. *)
Theorem getPendingSync_lists (e : Env) (w : World) :
  ∃ l,
    ActivityDB.getPendingSync e w = (Ok l, w)
    ∧ NoDup l.*1
    ∧ ∀ k row,
        (k, row) ∈ l ↔
        activities w !! k = Some row
        ∧ row !! "syncStatus" = Some (VStr "pending").
Proof.
  unfold ActivityDB.getPendingSync, gets. eexists. split; [reflexivity|]. split.
  - apply NoDup_keys_filter, orderBy_NoDup.
  - intros k row. rewrite list_elem_of_filter, orderBy_elem_iff. cbn [fst snd].
    split; [tauto|]. intros [Hrow Hpending]. split; [done|]. split; [done|].
    by rewrite Hpending.
Qed.

(** ** The API key *)

(** X14. The middleware hands a request on exactly when it carries a
    non-empty key that is the key of the server; with no key configured on
    the server no request gets through.  A request that is not handed on is
    answered 401 when it carries no key or an empty one and 403 otherwise,
    and the handler behind the middleware is not run: the world is what it
    was. *)
Theorem api_key_gate {A} (header API_KEY : option string)
    (handler : M (Response A)) (e : Env) (w : World) :
  (apiKeyAuth header API_KEY = auth_next
   ↔ ∃ key, key ≠ "" ∧ header = Some key ∧ API_KEY = Some key)
  ∧ (apiKeyAuth header API_KEY = auth_next →
     protected header API_KEY handler e w = handler e w)
  ∧ (apiKeyAuth header API_KEY ≠ auth_next →
     protected header API_KEY handler e w
     = (Ok (Failure (if bool_decide (header = None ∨ header = Some "")
                     then "401" else "403")), w)).
Proof.
  unfold protected, apiKeyAuth.
  destruct header as [key|]; cbn.
  - destruct (String.eqb_spec key "") as [->|Hkey]; cbn.
    + split_and!; [|done|].
      * split; [done|]. by intros (k & Hk & [= <-] & _).
      * intros _. try done; case_bool_decide; naive_solver.
    + destruct (bool_decide (Some key = API_KEY)) eqn:Hsame.
      * apply bool_decide_eq_true in Hsame. split_and!; [|done|done].
        split; [|done]. intros _. by exists key.
      * apply bool_decide_eq_false in Hsame. split_and!; [|done|].
        -- split; [done|]. intros (k & _ & [= <-] & ->). done.
        -- intros _. try done; case_bool_decide; naive_solver.
  - split_and!; [|done|].
    + split; [done|]. by intros (k & _ & [=] & _).
    + intros _. try done; case_bool_decide; naive_solver.
Qed.

Lemma api_key_gate_witness :
  apiKeyAuth (Some "guess") None ≠ auth_next
  ∧ protected (Some "guess") None (Backend.deleteActivity "srv0") served pushed_db
    = (Ok (Failure "403"), pushed_db).
Proof.
  assert (Hdenied : apiKeyAuth (Some "guess") None ≠ auth_next) by done.
  split; [exact Hdenied|].
  destruct (api_key_gate (Some "guess") None (Backend.deleteActivity "srv0")
              served pushed_db) as (_ & _ & Hrun).
  exact (Hrun Hdenied).
Defined.

(** ** The timer *)

(** What holds of the timer between two actions. *)
Lemma startAutoSync_spec e w intervalMinutes s :
  ∃ w',
    startAutoSync intervalMinutes s e w
    = (Ok {| syncInterval := Some (nextHandle s);
             timers := <[nextHandle s := (intervalMinutes * 60 * 1000)%Z]>
                         (match armed s with
                          | Some handle => base.delete handle (timers s)
                          | None => timers s
                          end);
             nextHandle := S (nextHandle s) |}, w').
Proof.
  unfold startAutoSync, bind. destruct (sync_returns e w) as (r & w' & ->).
  exists w'. unfold ret. by destruct (armed s).
Qed.

Lemma timer_ok_cleared s :
  timer_ok s →
  match armed s with
  | Some handle => base.delete handle (timers s)
  | None => timers s
  end = ∅.
Proof.
  intros [Hnext Hs]. unfold armed. destruct (syncInterval s) as [[|handle]|].
  - lia.
  - destruct Hs as (_ & period & ->). apply delete_singleton_eq.
  - exact Hs.
Qed.

Lemma stopAutoSync_spec s :
  timer_ok s →
  syncInterval (stopAutoSync s) = None
  ∧ timers (stopAutoSync s) = ∅
  ∧ nextHandle (stopAutoSync s) = nextHandle s.
Proof.
  intros Hok. pose proof (timer_ok_cleared s Hok) as Hclear.
  destruct Hok as [Hnext Hs]. unfold stopAutoSync, armed in *.
  destruct (syncInterval s) as [[|handle]|] eqn:Hsi; cbn; [lia|done|done].
Qed.

Lemma timer_invariant e actions : ∀ s w,
  timer_ok s →
  timer_ok (foldl (λ sw a, timer_act e a sw) (s, w) actions).1.
Proof.
  induction actions as [|a actions IH]; intros s w Hok; [done|].
  cbn [foldl]. destruct a as [intervalMinutes|]; cbn [timer_act fst snd].
  - destruct (startAutoSync_spec e w intervalMinutes s) as (w' & ->).
    apply IH. rewrite (timer_ok_cleared s Hok), insert_empty.
    destruct Hok as [Hnext _]. split; cbn; [lia|]. split; [lia|by eexists].
  - apply IH. destruct (stopAutoSync_spec s Hok) as (Hsi & Htimers & Hnext).
    split; [rewrite Hnext; apply Hok|]. by rewrite Hsi.
Qed.

(** X15. Whatever the page did to the timer before, after [stopAutoSync()]
    no interval timer is left and none is remembered, and after
    [startAutoSync(m)] exactly one is left, the one remembered, with a
    period of [m] minutes: starting twice never leaves two timers. *)
Theorem one_timer_at_most (e : Env) (w : World)
    (actions : list TimerAction) (last : TimerAction) :
  let s := (foldl (λ sw a, timer_act e a sw) (idle, w) (actions ++ [last])).1 in
  match last with
  | do_start intervalMinutes =>
      ∃ handle, syncInterval s = Some handle
                ∧ timers s = {[handle := (intervalMinutes * 60 * 1000)%Z]}
  | do_stop => syncInterval s = None ∧ timers s = ∅
  end.
Proof.
  cbn zeta. rewrite foldl_app. cbn [foldl].
  assert (Hidle : timer_ok idle) by (split; cbn; [lia|done]).
  pose proof (timer_invariant e actions idle w Hidle) as Hok.
  destruct (foldl _ (idle, w) actions) as [s w']. cbn [fst] in Hok.
  destruct last as [intervalMinutes|]; cbn [timer_act fst snd].
  - destruct (startAutoSync_spec e w' intervalMinutes s) as (w'' & ->).
    rewrite (timer_ok_cleared s Hok), insert_empty. cbn. by eexists.
  - destruct (stopAutoSync_spec s Hok) as (Hsi & Htimers & _). done.
Qed.

(** ** Entries whose record or document is gone *)

(** X16. Once [ActivityDB.delete] has removed a record, no queued entry for
    it sends anything: a ['create'] and an ['update'] throw before any
    request, a ['delete'] returns without one, and the world is left as the
    delete left it. *)
Theorem entries_of_deleted_record_send_nothing (e : Env) (w : World)
    (item : nat * QueueItem) :
  let w' := exec (ActivityDB.delete (activityId item.2)) e w in
  (match operation item.2 with
   | op_create => SyncService.syncCreate item
   | op_update => SyncService.syncUpdate item
   | op_delete => SyncService.syncDelete item
   end) e w'
  = (match operation item.2 with
     | op_delete => Ok tt
     | _ => Throw "Activity not found locally"
     end, w').
Proof.
  cbn zeta.
  pose proof (delete_removes_record e w (activityId item.2)) as Hgone.
  destruct (operation item.2).
  - unfold SyncService.syncCreate, bind, ActivityDB.getById, gets. by rewrite Hgone.
  - by apply syncUpdate_without_record.
  - by apply syncDelete_without_record.
Qed.

(** X17. An ['update'] or a ['delete'] for a record whose document is no
    longer on the backend: the request is served, the backend answers 404
    (500 when the [serverId] is a text that cannot be an identifier of the
    store), the operation throws, and nothing but the count of requests has
    changed; the record is still there, as it was. *)
Theorem push_to_missing_document (e : Env) (w : World)
    (item : nat * QueueItem) (activity : Obj) (id : string) :
  operation item.2 ≠ op_create →
  activities w !! activityId item.2 = Some activity →
  activity !! "serverId" = Some (VStr id) →
  id ≠ "" →
  Backend.findById id (server w) = None →
  net e (requests w) = true →
  (match operation item.2 with
   | op_create => SyncService.syncCreate item
   | op_update => SyncService.syncUpdate item
   | op_delete => SyncService.syncDelete item
   end) e w
  = (Throw ("Request failed with status code "
              +:+ (if isObjectId (runtime e) id then "404" else "500")),
     set_requests (S (requests w)) w).
Proof.
  intros Hop Hrecord Hid Hnonempty Hmissing Hnet.
  assert (Htruthy : truthy (Some (VStr id)) = true).
  { cbn. by destruct (String.eqb_spec id ""). }
  assert (Hfind : Activity.findById e id (server w)
                  = if isObjectId (runtime e) id then Some None else None).
  { unfold Activity.findById, Activity.castId.
    destruct (String.eqb_spec id ""); [done|]. cbn [negb andb].
    destruct (isObjectId (runtime e) id); [|done]. f_equal. exact Hmissing. }
  destruct (operation item.2); [done| |].
  - unfold SyncService.syncUpdate, bind, ActivityDB.getById, gets.
    rewrite Hrecord, Hid, Htruthy.
    unfold APIService.updateActivity, APIService.request, bind. cbn [fst snd].
    rewrite Hnet. unfold Backend.updateActivity, bind, gets, env.
    cbn [server set_requests]. rewrite Hfind.
    by destruct (isObjectId (runtime e) id).
  - unfold SyncService.syncDelete, bind, ActivityDB.getById, gets.
    rewrite Hrecord. cbn [mbind option_bind]. rewrite Hid, Htruthy.
    unfold APIService.deleteActivity, APIService.request, bind. cbn [fst snd].
    rewrite Hnet. unfold Backend.deleteActivity, bind, gets, env.
    cbn [server set_requests]. rewrite Hfind.
    by destruct (isObjectId (runtime e) id).
Qed.

Lemma push_to_missing_document_witness :
  let w := set_server (λ _, []) pushed_db in
  let item := (7, {| operation := op_delete; activityId := 1; data := None;
                     timestamp := 2000; retryCount := 0; lastAttempt := None |}) in
  SyncService.syncDelete item served w
  = (Throw "Request failed with status code 404", set_requests (S (requests w)) w).
Proof.
  intros w item.
  assert (Hrecord : ∃ activity, activities w !! 1 = Some activity
                                ∧ activity !! "serverId" = Some (VStr "srv0")).
  { destruct (activities w !! 1) as [activity|] eqn:Hrow.
    - exists activity. split; [done|].
      assert (H : (activities w !! 1 ≫= (.!! "serverId")) = Some (VStr "srv0"))
        by (vm_compute; reflexivity).
      by rewrite Hrow in H.
    - assert (H : (activities w !! 1 ≫= (.!! "serverId")) = Some (VStr "srv0"))
        by (vm_compute; reflexivity).
      by rewrite Hrow in H. }
  destruct Hrecord as (activity & Hrecord & Hid).
  exact (push_to_missing_document served w item activity "srv0"
           ltac:(discriminate) Hrecord Hid ltac:(discriminate) eq_refl eq_refl).
Defined.

(** ** A record added and deleted before any push *)

(** X18. [ActivityDB.add] followed by [ActivityDB.delete] of the record it
    returned leaves the store as it was, but not the queue: a ['create'] and
    a ['delete'] for the record are queued, under two keys that were free,
    and the record's identifier is not handed out again. *)
Theorem add_then_delete (e : Env) (w : World) (record : Obj) :
  fresh_keys w →
  ∃ id w1 w2,
    ActivityDB.add record e w = (Ok id, w1)
    ∧ ActivityDB.delete id e w1 = (Ok tt, w2)
    ∧ activities w2 = activities w
    ∧ activitiesNext w2 = S id
    ∧ syncQueue w !! syncQueueNext w = None
    ∧ syncQueue w !! S (syncQueueNext w) = None
    ∧ syncQueue w2
      = <[S (syncQueueNext w) :=
            {| operation := op_delete; activityId := id; data := None;
               timestamp := clock e (S (S (ticks w)));
               retryCount := 0; lastAttempt := None |}]>
          (<[syncQueueNext w :=
               {| operation := op_create; activityId := id; data := Some record;
                  timestamp := clock e (S (ticks w));
                  retryCount := 0; lastAttempt := None |}]> (syncQueue w))
    ∧ fresh_keys w2.
Proof.
  intros Hfresh. rewrite add_spec. eexists _, _, _. split; [reflexivity|].
  rewrite delete_spec. split; [reflexivity|].
  pose proof (fresh_activity_key w Hfresh) as Hfree.
  pose proof (fresh_queue_key w Hfresh) as Hqfree.
  destruct Hfresh as [Hacts Hqueue].
  cbn [activities activitiesNext syncQueue syncQueueNext ticks
       set_activities set_activitiesNext set_syncQueue set_syncQueueNext set_ticks].
  split_and!; try done.
  - by apply delete_insert_id.
  - destruct (syncQueue w !! S (syncQueueNext w)) eqn:Hlook; [|done].
    apply Hqueue in Hlook. lia.
  - split; cbn.
    + rewrite delete_insert_id by done.
      intros k row Hk. apply Hacts in Hk. lia.
    + apply map_Forall_insert_2; [lia|]. apply map_Forall_insert_2; [lia|].
      intros k q Hk. apply Hqueue in Hk. lia.
Qed.

Lemma add_then_delete_witness :
  fresh_keys pushed_db
  ∧ ∃ id w1 w2,
      ActivityDB.add a_run served pushed_db = (Ok id, w1)
      ∧ ActivityDB.delete id served w1 = (Ok tt, w2)
      ∧ activities w2 = activities pushed_db
      ∧ fresh_keys w2.
Proof.
  assert (Hfresh : fresh_keys pushed_db).
  { refine (bool_decide_unpack _ _). vm_compute. exact I. }
  split; [exact Hfresh|].
  destruct (add_then_delete served pushed_db a_run Hfresh)
    as (id & w1 & w2 & Hadd & Hdel & Hacts & _ & _ & _ & _ & Hfresh2).
  exists id, w1, w2. by split_and!.
Defined.

(** ** The key generators stay ahead of the keys *)

(** Writes that touch neither table nor generator keep [fresh_keys]; the
    goals they leave are closed by conversion. *)
Ltac same_keys := try (intros; assumption).

Lemma fresh_syncQueue_add e item :
  keeps fresh_keys e (syncQueue_add item) (λ _, True).
Proof.
  intros w [Hacts Hqueue]. cbn. split; [|done]. split; [exact Hacts|].
  by apply fresh_after_insert.
Qed.

Lemma fresh_queue_shrinks e (f : gmap nat QueueItem → gmap nat QueueItem) :
  (∀ q, dom (f q) ⊆ dom q) →
  keeps fresh_keys e (modify (set_syncQueue f)) (λ _, True).
Proof.
  intros Hf. apply keeps_modify. intros w [Hacts Hqueue].
  split; [exact Hacts|]. intros k q Hk. cbn in Hk.
  assert (Hin : k ∈ dom (syncQueue w)) by (apply Hf; by apply elem_of_dom_2 in Hk).
  apply elem_of_dom in Hin as [q' Hq']. by apply (Hqueue k q').
Qed.

Lemma fresh_records_shrink e (f : gmap nat Obj → gmap nat Obj) :
  (∀ rows, dom (f rows) ⊆ dom rows) →
  keeps fresh_keys e (modify (set_activities f)) (λ _, True).
Proof.
  intros Hf. apply keeps_modify. intros w [Hacts Hqueue].
  split; [|exact Hqueue]. intros k row Hk. cbn in Hk.
  assert (Hin : k ∈ dom (activities w)) by (apply Hf; by apply elem_of_dom_2 in Hk).
  apply elem_of_dom in Hin as [row' Hrow']. by apply (Hacts k row').
Qed.

Lemma fresh_remove e id : keeps fresh_keys e (SyncQueueDB.remove id) (λ _, True).
Proof. apply fresh_queue_shrinks. intros q. rewrite dom_delete. set_solver. Qed.

Lemma fresh_clear e : keeps fresh_keys e SyncQueueDB.clear (λ _, True).
Proof. apply fresh_queue_shrinks. intros q. set_solver. Qed.

Lemma fresh_incrementRetry e id :
  keeps fresh_keys e (SyncQueueDB.incrementRetry id) (λ _, True).
Proof.
  unfold SyncQueueDB.incrementRetry. eapply keeps_bind; [apply keeps_gets|].
  intros [item|] _; [|by apply keeps_ret].
  eapply keeps_bind; [apply keeps_now; same_keys|]. intros t _.
  apply fresh_queue_shrinks. intros q. by rewrite dom_alter.
Qed.

Lemma fresh_add e activity : keeps fresh_keys e (ActivityDB.add activity) (λ _, True).
Proof.
  unfold ActivityDB.add. eapply keeps_bind; [apply keeps_now; same_keys|]. intros t _.
  eapply (keeps_bind _ _ _ _ (λ _, True)).
  { intros w [Hacts Hqueue]. cbn. split; [|done]. split; [|exact Hqueue].
    by apply fresh_after_insert. }
  intros id _. eapply keeps_bind; [apply keeps_now; same_keys|]. intros t' _.
  eapply keeps_bind; [apply fresh_syncQueue_add|]. intros; by apply keeps_ret.
Qed.

Lemma fresh_update e id updates :
  keeps fresh_keys e (ActivityDB.update id updates) (λ _, True).
Proof.
  unfold ActivityDB.update. eapply keeps_bind; [apply keeps_now; same_keys|]. intros t _.
  eapply keeps_bind.
  { apply fresh_records_shrink. intros rows. by rewrite dom_alter. }
  intros _ _. eapply keeps_bind; [apply keeps_now; same_keys|]. intros t' _.
  eapply keeps_bind; [apply fresh_syncQueue_add|]. intros; by apply keeps_ret.
Qed.

Lemma fresh_delete e id : keeps fresh_keys e (ActivityDB.delete id) (λ _, True).
Proof.
  unfold ActivityDB.delete. eapply keeps_bind.
  { apply fresh_records_shrink. intros rows. rewrite dom_delete. set_solver. }
  intros _ _. eapply keeps_bind; [apply keeps_now; same_keys|]. intros t' _.
  eapply keeps_bind; [apply fresh_syncQueue_add|]. intros; by apply keeps_ret.
Qed.

Lemma fresh_markSynced e id v :
  keeps fresh_keys e (ActivityDB.markSynced id v) (λ _, True).
Proof. apply fresh_records_shrink. intros rows. by rewrite dom_alter. Qed.

Lemma fresh_createActivity e activity :
  keeps fresh_keys e (APIService.createActivity activity) (λ _, True).
Proof.
  unfold APIService.createActivity.
  eapply (keeps_bind _ _ _ _ (λ _, True)); [|intros; by apply keeps_ret].
  apply keeps_request; same_keys. unfold Backend.createActivity.
  destruct (_ || _); [by apply keeps_ret|].
  destruct (if truthy _ then _ else _) as [activityData|]; [|by apply keeps_ret].
  eapply keeps_bind; [apply keeps_create; same_keys|].
  intros [doc| |] _; by apply keeps_ret.
Qed.

Lemma fresh_processSyncQueue e :
  keeps fresh_keys e SyncService.processSyncQueue (λ _, True).
Proof.
  unfold SyncService.processSyncQueue. eapply keeps_bind; [apply keeps_gets|].
  intros queue _. apply keeps_for_of. intros item results _.
  unfold SyncService.processItem. apply keeps_try_catch.
  - eapply (keeps_bind _ _ _ _ (λ _, True)).
    + destruct (operation item.2).
      * unfold SyncService.syncCreate. eapply keeps_bind; [apply keeps_gets|].
        intros [activity|] _; [|apply keeps_throw].
        eapply keeps_bind; [apply fresh_createActivity|].
        intros response _. apply fresh_markSynced.
      * unfold SyncService.syncUpdate. eapply keeps_bind; [apply keeps_gets|].
        intros [activity|] _; [|apply keeps_throw].
        destruct (activity !! "serverId") as [serverId|]; [|apply keeps_throw].
        destruct (truthy (Some serverId)); [|apply keeps_throw].
        eapply keeps_bind; [apply keeps_updateActivity; same_keys|].
        intros _ _. apply fresh_markSynced.
      * unfold SyncService.syncDelete. eapply keeps_bind; [apply keeps_gets|].
        intros activity _.
        destruct (activity ≫= _) as [serverId|]; [|by apply keeps_ret].
        destruct (truthy (Some serverId)); [|by apply keeps_ret].
        apply keeps_deleteActivity; same_keys.
    + intros _ _. eapply keeps_bind; [apply fresh_remove|].
      intros; by apply keeps_ret.
  - intros error. eapply keeps_bind; [apply fresh_incrementRetry|].
    intros _ _. eapply (keeps_bind _ _ _ _ (λ _, True)).
    + destruct (5 <=? _); [apply fresh_remove|by apply keeps_ret].
    + intros; by apply keeps_ret.
Qed.

Lemma fresh_pullFromServer e :
  keeps fresh_keys e SyncService.pullFromServer (λ _, True).
Proof.
  unfold SyncService.pullFromServer.
  apply keeps_try_catch; [|intros; apply keeps_throw].
  eapply keeps_bind; [apply keeps_gets|]. intros lastSync _.
  eapply keeps_bind; [apply keeps_getActivities; same_keys|]. intros serverActivities _.
  apply keeps_for_of. intros serverActivity results _.
  unfold SyncService.pullItem. eapply keeps_bind; [apply keeps_gets|].
  intros localActivities _.
  destruct (List.find _ localActivities) as [localActivity|].
  - destruct (dateGt _ _); [|by apply keeps_ret].
    eapply keeps_bind; [apply fresh_update|]. intros; by apply keeps_ret.
  - eapply keeps_bind; [apply fresh_add|]. intros; by apply keeps_ret.
Qed.

Lemma fresh_forceSync e : keeps fresh_keys e SyncService.forceSync (λ _, True).
Proof.
  unfold SyncService.forceSync, SyncService.isOnline.
  eapply keeps_bind; [apply keeps_gets|]. intros online _.
  destruct (negb online); [apply keeps_throw|].
  apply keeps_try_catch; [|intros; apply keeps_throw].
  eapply keeps_bind; [apply fresh_clear|]. intros _ _.
  eapply keeps_bind; [apply keeps_getActivities; same_keys|]. intros serverActivities _.
  eapply keeps_bind; [apply keeps_gets|]. intros localActivities _.
  eapply keeps_bind.
  { apply keeps_for_of. intros activity [] _. apply fresh_delete. }
  intros _ _. eapply keeps_bind.
  { apply keeps_for_of. intros serverActivity [] _.
    eapply keeps_bind; [apply fresh_add|]. intros; by apply keeps_ret. }
  intros _ _. eapply keeps_bind; [apply keeps_now; same_keys|]. intros t _.
  eapply keeps_bind; [apply keeps_modify; same_keys|]. intros; by apply keeps_ret.
Qed.

Lemma fresh_sync e : keeps fresh_keys e SyncService.sync (λ _, True).
Proof.
  unfold SyncService.sync, SyncService.isOnline.
  eapply keeps_bind; [apply keeps_gets|]. intros busy _.
  destruct busy; [by apply keeps_ret|].
  eapply keeps_bind; [apply keeps_gets|]. intros online _.
  destruct (negb online); [by apply keeps_ret|].
  eapply keeps_bind; [apply keeps_modify; same_keys|]. intros _ _.
  intros w Hw. unfold try_finally.
  match goal with |- context [try_catch ?m ?h e w] =>
    assert (Hbody : keeps fresh_keys e (try_catch m h) (λ _, True)) end.
  { apply keeps_try_catch; [|intros; by apply keeps_ret].
    eapply (keeps_bind _ _ _ _ (λ _, True)).
    { apply keeps_try_catch; [apply keeps_healthCheck; same_keys|intros; apply keeps_throw]. }
    intros _ _. eapply keeps_bind; [apply fresh_processSyncQueue|]. intros syncResults _.
    eapply keeps_bind; [apply fresh_pullFromServer|]. intros pullResults _.
    eapply keeps_bind; [apply keeps_now; same_keys|]. intros t _.
    eapply keeps_bind; [apply keeps_modify; same_keys|]. intros; by apply keeps_ret. }
  specialize (Hbody w Hw).
  destruct (try_catch _ _ e w) as [[r|x] w']; [destruct Hbody; auto|auto].
Qed.

Lemma fresh_act e a w : fresh_keys w → fresh_keys (act e a w).
Proof.
  intros Hw. destruct a; cbn [act]; try exact Hw.
  - by eapply keeps_exec; [apply fresh_add|].
  - by eapply keeps_exec; [apply fresh_update|].
  - by eapply keeps_exec; [apply fresh_delete|].
  - destruct (truthy _); [|exact Hw].
    by eapply keeps_exec; [apply fresh_markSynced|].
  - by eapply keeps_exec; [apply fresh_clear|].
  - by eapply keeps_exec; [apply fresh_processSyncQueue|].
  - by eapply keeps_exec; [apply fresh_pullFromServer|].
  - by eapply keeps_exec; [apply fresh_sync|].
  - by eapply keeps_exec; [apply fresh_forceSync|].
Qed.

Lemma fresh_run_actions e l : ∀ w, fresh_keys w → fresh_keys (run_actions e l w).
Proof.
  unfold run_actions. induction l as [|a l IH]; intros w Hw; [exact Hw|].
  cbn [foldl]. by apply IH, fresh_act.
Qed.

(** No operation moves a key generator back. *)
Ltac counters := intros; unfold not_rewound in *; cbn; lia.

Lemma act_not_rewound e a w0 w : not_rewound w0 w → not_rewound w0 (act e a w).
Proof.
  intros Hw. destruct a; cbn [act]; try exact Hw.
  - apply (keeps_exec (not_rewound w0) e _ (λ _, True)); [|exact Hw].
    apply keeps_add; counters.
  - apply (keeps_exec (not_rewound w0) e _ (λ _, True)); [|exact Hw].
    apply keeps_update; counters.
  - apply (keeps_exec (not_rewound w0) e _ (λ _, True)); [|exact Hw].
    apply keeps_delete; counters.
  - destruct (truthy _); exact Hw.
  - apply (keeps_exec (not_rewound w0) e _ (λ _, True)); [|exact Hw].
    apply frame_processSyncQueue; counters.
  - apply (keeps_exec (not_rewound w0) e _ (λ _, True)); [|exact Hw].
    apply frame_pullFromServer; counters.
  - apply (keeps_exec (not_rewound w0) e _ (λ _, True)); [|exact Hw].
    apply frame_sync; counters.
  - apply (keeps_exec (not_rewound w0) e _ (λ _, True)); [|exact Hw].
    apply keeps_forceSync; counters.
Qed.

Lemma run_actions_not_rewound e l : ∀ w0 w,
  not_rewound w0 w → not_rewound w0 (run_actions e l w).
Proof.
  unfold run_actions. induction l as [|a l IH]; intros w0 w Hw; [exact Hw|].
  cbn [foldl]. by apply IH, act_not_rewound.
Qed.

(** X20. Keys are never handed out twice.  Take any history of operations
    of the record store and of the sync service from the empty database,
    whatever the connectivity, the network and the backend collection, and
    any point of it.  At the end of the history both key generators are
    ahead of every key in use, neither has moved back since that point, and
    both are above every key that was in use at that point, whether its
    record or entry still exists or was deleted since.  So the identifier
    the next [add] returns names no record, now or at any earlier point,
    and the next queue entry replaces none. *)
Theorem keys_are_never_reused (e : Env) (earlier later : list Action) :
  let w0 := run_actions e earlier empty_db in
  let w := run_actions e later w0 in
  fresh_keys w
  ∧ not_rewound w0 w
  ∧ (∀ id, id ∈ dom (activities w0) → id < activitiesNext w)
  ∧ (∀ id, id ∈ dom (syncQueue w0) → id < syncQueueNext w)
  ∧ activities w !! activitiesNext w = None
  ∧ syncQueue w !! syncQueueNext w = None
  ∧ ∀ record, ∃ w',
      ActivityDB.add record e w = (Ok (activitiesNext w), w')
      ∧ (activitiesNext w ∉ dom (activities w0))
      ∧ dom (activities w') = {[activitiesNext w]} ∪ dom (activities w)
      ∧ size (activities w') = S (size (activities w))
      ∧ size (syncQueue w') = S (size (syncQueue w)).
Proof.
  cbn zeta.
  assert (H0 : fresh_keys empty_db) by (split; intros k x Hk; by cbn in Hk).
  pose proof (fresh_run_actions e earlier _ H0) as Hfresh0.
  set (w0 := run_actions e earlier empty_db) in *.
  pose proof (fresh_run_actions e later _ Hfresh0) as Hfresh.
  assert (Hmono : not_rewound w0 (run_actions e later w0)).
  { apply run_actions_not_rewound. split; lia. }
  set (w := run_actions e later w0) in *.
  pose proof (fresh_activity_key w Hfresh) as Hrow.
  pose proof (fresh_queue_key w Hfresh) as Hentry.
  assert (Hacts : ∀ id, id ∈ dom (activities w0) → id < activitiesNext w).
  { intros id [row Hid]%elem_of_dom. destruct Hfresh0 as [Hlt _], Hmono as [Hle _].
    specialize (Hlt id row Hid). cbn in Hlt. lia. }
  assert (Hqueue : ∀ id, id ∈ dom (syncQueue w0) → id < syncQueueNext w).
  { intros id [q Hid]%elem_of_dom. destruct Hfresh0 as [_ Hlt], Hmono as [_ Hle].
    specialize (Hlt id q Hid). cbn in Hlt. lia. }
  split_and!; try done.
  intros record. rewrite add_spec. eexists. split; [reflexivity|].
  cbn [activities syncQueue set_activities set_activitiesNext set_syncQueue
       set_syncQueueNext set_ticks].
  split_and!.
  - intros Hin. apply Hacts in Hin. lia.
  - by rewrite dom_insert_L.
  - by rewrite map_size_insert_None.
  - by rewrite map_size_insert_None.
Qed.
